(** * TOTPService: a shallow embedding of the TOTP engine of totp-project

    Sources: src/totp-project/src/services/TOTPService.ts (the service),
    the otplib `totp` object it delegates to (@otplib/preset-browser) and
    the platform functions it calls ([new URL], [URLSearchParams],
    [encodeURIComponent], [decodeURIComponent], [parseInt]).

    Conventions of the model.
    - A JS string is a [list ascii] ([jstr]); ASCII letters and ASCII
      white space are the characters with case and [\s] properties.
    - A JS function that may throw returns [exc A]: [Ok v] or [Throw msg],
      where [msg] is the message of the [Error] that is thrown.
    - The wall clock [Date.now()] is an explicit argument [now] in
      milliseconds.
    - Numbers that the code treats as integers are [Z]; [NaN] appears
      explicitly where [parseInt] can produce it ([jsnum]). *)

From Stdlib Require Import ZArith List Ascii String Bool Lia.
Import ListNotations.

Definition jstr := list ascii.
Definition str (s : string) : jstr := list_ascii_of_string s.

(** ** Exceptions *)

Inductive exc (A : Type) : Type :=
| Ok (v : A)
| Throw (msg : string).
Arguments Ok {A} v.
Arguments Throw {A} msg.

Definition exc_bind {A B} (m : exc A) (k : A -> exc B) : exc B :=
  match m with
  | Ok v => k v
  | Throw e => Throw e
  end.

Notation "x <- m ;; k" := (exc_bind m (fun x => k))
  (at level 61, m at next level, right associativity).

(** [try { ... } catch (error) { throw new Error(prefix + error.message) }] *)
Definition rethrow_with {A} (prefix : string) (m : exc A) : exc A :=
  match m with
  | Ok v => Ok v
  | Throw e => Throw (String.append prefix e)
  end.

(** ** Characters and strings *)

Definition code (c : ascii) : nat := nat_of_ascii c.
Definition chr (n : nat) : ascii := ascii_of_nat n.

Definition in_range (lo hi : nat) (c : ascii) : bool :=
  (lo <=? code c) && (code c <=? hi).

Definition ceq (c d : ascii) : bool := Ascii.eqb c d.

Fixpoint jstr_eqb (a b : jstr) : bool :=
  match a, b with
  | [], [] => true
  | x :: a', y :: b' => ceq x y && jstr_eqb a' b'
  | _, _ => false
  end.

(** [\s] of a JS regular expression, on ASCII: TAB, LF, VT, FF, CR, SPACE. *)
Definition is_js_space (c : ascii) : bool :=
  in_range 9 13 c || (code c =? 32).

(** [String.prototype.toUpperCase] / [toLowerCase] on ASCII letters. *)
Definition to_upper_char (c : ascii) : ascii :=
  if in_range 97 122 c then chr (code c - 32) else c.
Definition to_lower_char (c : ascii) : ascii :=
  if in_range 65 90 c then chr (code c + 32) else c.
Definition toUpperCase (s : jstr) : jstr := map to_upper_char s.
Definition toLowerCase (s : jstr) : jstr := map to_lower_char s.

(** The empty string, which JS treats as false. *)
Definition is_empty (s : jstr) : bool :=
  match s with [] => true | _ => false end.

(** [s.includes(c)] for a one-character needle. *)
Definition includes_char (c : ascii) (s : jstr) : bool := existsb (ceq c) s.

(** [s.split(sep)] for a one-character separator (full split). *)
Fixpoint js_split (sep : ascii) (s : jstr) : list jstr :=
  match s with
  | [] => [[]]
  | c :: r =>
      if ceq c sep then [] :: js_split sep r
      else match js_split sep r with
           | [] => [[c]]
           | w :: ws => (c :: w) :: ws
           end
  end.

(** [s.split(sep, limit)]: the full split, truncated to [limit] parts. *)
Definition js_split_limit (sep : ascii) (limit : nat) (s : jstr) : list jstr :=
  firstn limit (js_split sep s).

(** [s.substring(1)] *)
Definition substring1 (s : jstr) : jstr := skipn 1 s.

(** ** Secret codec: [TOTPService.validateAndCleanSecret] (lines 297-319) *)

(** Character class [[A-Z2-7]]. *)
Definition is_base32_char (c : ascii) : bool :=
  in_range 65 90 c || in_range 50 55 c.

Definition is_pad (c : ascii) : bool := ceq c "="%char.

(** The regular expression [/^[A-Z2-7]+=*$/], read left to right. *)
Fixpoint base32_tail (s : jstr) : bool :=
  match s with
  | [] => true
  | c :: r => if is_base32_char c then base32_tail r else forallb is_pad s
  end.

Definition base32_re (s : jstr) : bool :=
  match s with
  | [] => false
  | c :: r => is_base32_char c && base32_tail r
  end.

(** [s.replace(/=+$/, '')]: drop the trailing run of ['=']. *)
Fixpoint drop_while (p : ascii -> bool) (s : jstr) : jstr :=
  match s with
  | [] => []
  | c :: r => if p c then drop_while p r else s
  end.

Definition strip_trailing_pad (s : jstr) : jstr :=
  rev (drop_while is_pad (rev s)).

(** [secret.replace(/\s/g, '').toUpperCase()] *)
Definition clean_secret (secret : jstr) : jstr :=
  toUpperCase (filter (fun c => negb (is_js_space c)) secret).

Definition validateAndCleanSecret (secret : jstr) : exc jstr :=
  match secret with
  | [] => Throw "Secret must be a non-empty string"
  | _ =>
      let cleaned := clean_secret secret in
      if negb (base32_re cleaned) then
        Throw "Secret must be valid Base32 encoded string"
      else
        let withoutPadding := strip_trailing_pad cleaned in
        if List.length withoutPadding <? 8 then
          Throw "Secret is too short (minimum 8 characters without padding)"
        else Ok cleaned
  end.

(** [TOTPService.validateSecret] (lines 115-122) *)
Definition validateSecret (secret : jstr) : bool :=
  match validateAndCleanSecret secret with
  | Ok cleaned => 0 <? List.length cleaned
  | Throw _ => false
  end.

(** ** Platform digests: SHA-1, SHA-256, SHA-512 (FIPS 180-4) and HMAC (RFC 2104)

    otplib's browser preset obtains its digests from crypto-js.  They are
    written out here so that codes can be evaluated at concrete inputs;
    the general theorems below do not depend on them. *)

Module Sha.
Open Scope Z_scope.

(** Big-endian conversions between bytes and [n]-byte words. *)
Definition be_word (bs : list Z) : Z := fold_left (fun acc b => acc * 256 + b) bs 0.

Fixpoint word_be (n : nat) (w : Z) : list Z :=
  match n with
  | O => []
  | S k => word_be k (w / 256) ++ [w mod 256]
  end.

Fixpoint chunks (fuel : nat) (n : nat) (bs : list Z) : list (list Z) :=
  match fuel with
  | O => []
  | S f =>
      match bs with
      | [] => []
      | _ => firstn n bs :: chunks f n (skipn n bs)
      end
  end.

(** Message padding: [0x80], zeros, then the bit length on [lenbytes] bytes. *)
Definition pad (blk lenbytes : nat) (m : list Z) : list Z :=
  let l := List.length m in
  let z := ((blk - (l + 1 + lenbytes) mod blk) mod blk)%nat in
  m ++ [128] ++ repeat 0 z ++ word_be lenbytes (8 * Z.of_nat l).

(** Merkle-Damgard iteration of a compression function. *)
Definition md_hash (blk lenbytes wbytes : nat) (iv : list Z)
    (compress : list Z -> list Z -> list Z) (m : list Z) : list Z :=
  let p := pad blk lenbytes m in
  let blocks := chunks (List.length p) blk p in
  let words b := map be_word (chunks blk wbytes b) in
  let h := fold_left (fun h b => compress h (words b)) blocks iv in
  flat_map (word_be wbytes) h.

(** Message schedule: extend [w] by [k] words, each computed from the
    words so far. *)
Fixpoint extend (k : nat) (f : list Z -> Z) (w : list Z) : list Z :=
  match k with
  | O => w
  | S k' => extend k' f (w ++ [f w])
  end.

Definition at_ (w : list Z) (i : nat) : Z := nth i w 0.

(** *** SHA-1 *)

Definition M32 := 2 ^ 32.
Definition rotl32 (n : Z) (x : Z) : Z :=
  Z.lor ((Z.shiftl x n) mod M32) (Z.shiftr x (32 - n)).
Definition rotr32 (n : Z) (x : Z) : Z :=
  Z.lor (Z.shiftr x n) ((Z.shiftl x (32 - n)) mod M32).
Definition not32 (x : Z) : Z := Z.lxor x (M32 - 1).
Definition add32 (a b : Z) : Z := (a + b) mod M32.

Definition sha1_sched (w : list Z) : Z :=
  let t := List.length w in
  rotl32 1 (Z.lxor (Z.lxor (at_ w (t - 3)) (at_ w (t - 8)))
                   (Z.lxor (at_ w (t - 14)) (at_ w (t - 16)))).

Definition sha1_f (t : nat) (b c d : Z) : Z * Z :=
  if (t <? 20)%nat then (Z.lor (Z.land b c) (Z.land (not32 b) d), 0x5a827999)
  else if (t <? 40)%nat then (Z.lxor b (Z.lxor c d), 0x6ed9eba1)
  else if (t <? 60)%nat then
    (Z.lor (Z.lor (Z.land b c) (Z.land b d)) (Z.land c d), 0x8f1bbcdc)
  else (Z.lxor b (Z.lxor c d), 0xca62c1d6).

Definition sha1_compress (h : list Z) (blockw : list Z) : list Z :=
  let w := extend 64 sha1_sched blockw in
  let round (st : Z * Z * Z * Z * Z) (t : nat) :=
    let '(a, b, c, d, e) := st in
    let '(f, k) := sha1_f t b c d in
    let tmp := add32 (add32 (add32 (rotl32 5 a) f) (add32 e k)) (at_ w t) in
    (tmp, a, rotl32 30 b, c, d) in
  let '(a, b, c, d, e) :=
    fold_left round (seq 0 80) (at_ h 0, at_ h 1, at_ h 2, at_ h 3, at_ h 4) in
  [add32 (at_ h 0) a; add32 (at_ h 1) b; add32 (at_ h 2) c;
   add32 (at_ h 3) d; add32 (at_ h 4) e].

Definition sha1 : list Z -> list Z :=
  md_hash 64 8 4 [0x67452301; 0xefcdab89; 0x98badcfe; 0x10325476; 0xc3d2e1f0]
    sha1_compress.

(** *** SHA-256 and SHA-512 share one round structure over [bits]-bit words. *)

Definition rotr (bits n x : Z) : Z :=
  Z.lor (Z.shiftr x n) ((Z.shiftl x (bits - n)) mod 2 ^ bits).
Definition addw (bits a b : Z) : Z := (a + b) mod 2 ^ bits.

Record sha2_params := {
  bits : Z;
  rounds : nat;
  S0 : Z * Z * Z; S1 : Z * Z * Z;   (** rotations of the round functions *)
  s0 : Z * Z * Z; s1 : Z * Z * Z;   (** rotations, shift of the schedule *)
  K : list Z
}.

Definition big_sigma (P : sha2_params) (r : Z * Z * Z) (x : Z) : Z :=
  let '(a, b, c) := r in
  Z.lxor (Z.lxor (rotr (bits P) a x) (rotr (bits P) b x)) (rotr (bits P) c x).
Definition small_sigma (P : sha2_params) (r : Z * Z * Z) (x : Z) : Z :=
  let '(a, b, c) := r in
  Z.lxor (Z.lxor (rotr (bits P) a x) (rotr (bits P) b x)) (Z.shiftr x c).

Definition sha2_sched (P : sha2_params) (w : list Z) : Z :=
  let t := List.length w in
  addw (bits P) (addw (bits P) (small_sigma P (s1 P) (at_ w (t - 2))) (at_ w (t - 7)))
       (addw (bits P) (small_sigma P (s0 P) (at_ w (t - 15))) (at_ w (t - 16))).

Definition sha2_compress (P : sha2_params) (h : list Z) (blockw : list Z) : list Z :=
  let add := addw (bits P) in
  let w := extend (rounds P - 16) (sha2_sched P) blockw in
  let round (st : Z * Z * Z * Z * Z * Z * Z * Z) (t : nat) :=
    let '(a, b, c, d, e, f, g, hh) := st in
    let ch := Z.lxor (Z.land e f) (Z.land (Z.lxor e (2 ^ bits P - 1)) g) in
    let maj := Z.lxor (Z.lxor (Z.land a b) (Z.land a c)) (Z.land b c) in
    let t1 := add (add (add hh (big_sigma P (S1 P) e)) (add ch (at_ (K P) t))) (at_ w t) in
    let t2 := add (big_sigma P (S0 P) a) maj in
    (add t1 t2, a, b, c, add d t1, e, f, g) in
  let '(a, b, c, d, e, f, g, hh) :=
    fold_left round (seq 0 (rounds P))
      (at_ h 0, at_ h 1, at_ h 2, at_ h 3, at_ h 4, at_ h 5, at_ h 6, at_ h 7) in
  [add (at_ h 0) a; add (at_ h 1) b; add (at_ h 2) c; add (at_ h 3) d;
   add (at_ h 4) e; add (at_ h 5) f; add (at_ h 6) g; add (at_ h 7) hh].

(** The round constants and initial hash values of FIPS 180-4 (4.2.2,
    4.2.3, 5.3.3, 5.3.5): the first [w] bits of the fractional parts of
    the cube roots (square roots for the initial values) of the first
    primes. *)
Fixpoint is_prime_from (fuel : nat) (d n : Z) : bool :=
  match fuel with
  | O => true
  | S f => if n <? d * d then true
           else if n mod d =? 0 then false else is_prime_from f (d + 1) n
  end.

Fixpoint primes_from (fuel count : nat) (n : Z) : list Z :=
  match fuel, count with
  | _, O => []
  | O, _ => []
  | S f, S c =>
    if is_prime_from (Z.to_nat n) 2 n then n :: primes_from f c (n + 1)
    else primes_from f count (n + 1)
  end.

Definition first_primes (count : nat) : list Z := primes_from 1000 count 2.

(** Integer [k]-th root, one bit at a time from bit [i] down. *)
Fixpoint root_bits (k x r : Z) (i : nat) : Z :=
  let r' := r + 2 ^ Z.of_nat i in
  let r2 := if r' ^ k <=? x then r' else r in
  match i with O => r2 | S j => root_bits k x r2 j end.

Definition iroot (k x : Z) : Z := root_bits k x 0 80.

Definition frac_bits (k w p : Z) : Z := iroot k (p * 2 ^ (k * w)) mod 2 ^ w.

Definition K256 : list Z := Eval vm_compute in map (frac_bits 3 32) (first_primes 64).
Definition H256 : list Z := Eval vm_compute in map (frac_bits 2 32) (first_primes 8).
Definition K512 : list Z := Eval vm_compute in map (frac_bits 3 64) (first_primes 80).
Definition H512 : list Z := Eval vm_compute in map (frac_bits 2 64) (first_primes 8).

Definition P256 : sha2_params := {|
  bits := 32; rounds := 64;
  S0 := (2, 13, 22); S1 := (6, 11, 25); s0 := (7, 18, 3); s1 := (17, 19, 10);
  K := K256 |}.

Definition P512 : sha2_params := {|
  bits := 64; rounds := 80;
  S0 := (28, 34, 39); S1 := (14, 18, 41); s0 := (1, 8, 7); s1 := (19, 61, 6);
  K := K512 |}.

Definition sha256 : list Z -> list Z := md_hash 64 8 4 H256 (sha2_compress P256).
Definition sha512 : list Z -> list Z := md_hash 128 16 8 H512 (sha2_compress P512).

(** *** HMAC *)

Definition hmac (H : list Z -> list Z) (blk : nat) (key msg : list Z) : list Z :=
  let k := if (blk <? List.length key)%nat then H key else key in
  let k0 := k ++ repeat 0 (blk - List.length k) in
  let ipad := map (Z.lxor 0x36) k0 in
  let opad := map (Z.lxor 0x5c) k0 in
  H (opad ++ H (ipad ++ msg)).

End Sha.

(** ** Numbers as strings: [String(n)], [n.toString()] and [parseInt(s, 10)] *)

Open Scope Z_scope.

Definition digit_char (d : Z) : ascii := chr (48 + Z.to_nat d).
Definition is_digit (c : ascii) : bool := in_range 48 57 c.

Fixpoint dec_aux (fuel : nat) (n : Z) (acc : jstr) : jstr :=
  match fuel with
  | O => acc
  | S f =>
      let acc' := digit_char (n mod 10) :: acc in
      if n <? 10 then acc' else dec_aux f (n / 10) acc'
  end.

(** Decimal representation of an integer; the binary size of [n] bounds
    the number of its decimal digits. *)
Definition number_to_string (n : Z) : jstr :=
  match n with
  | Z0 => ["0"%char]
  | Zpos p => dec_aux (Pos.size_nat p) n []
  | Zneg p => "-"%char :: dec_aux (Pos.size_nat p) (Zpos p) []
  end.

(** A JS number produced by [parseInt]: an integer or [NaN]. *)
Inductive jsnum := JNum (z : Z) | JNaN.

Fixpoint digits_value_acc (acc : Z) (s : jstr) : Z * bool :=
  match s with
  | c :: r =>
      if is_digit c then
        let '(v, _) := digits_value_acc (acc * 10 + Z.of_nat (code c - 48)) r in (v, true)
      else (acc, false)
  | [] => (acc, false)
  end.

(** [parseInt(s, 10)]: skip leading white space, an optional sign, then
    the longest run of decimal digits; no digit gives [NaN]. *)
Definition parseInt (s : jstr) : jsnum :=
  let s1 := drop_while is_js_space s in
  let '(sign, s2) :=
    match s1 with
    | "-"%char :: r => (-1, r)
    | "+"%char :: r => (1, r)
    | _ => (1, s1)
    end in
  match s2 with
  | c :: _ =>
      if is_digit c then JNum (sign * fst (digits_value_acc 0 s2)) else JNaN
  | [] => JNaN
  end.

(** ** otplib: the [totp] object of [@otplib/preset-browser] (otplib v12)

    [TOTPService] calls [totp.generate(cleanSecret)] and
    [totp.check(code, cleanSecret)] after setting [totp.options].  The
    [totp] object (unlike otplib's [authenticator]) reads its secret with
    key encoding ['ascii']: the HMAC key is made of the character codes
    of the secret string, repeated up to the digest size when shorter
    ([totpCreateHmacKey]). *)

Inductive HashAlgorithm := sha1 | sha256 | sha512.

Record OtpOptions := {
  o_digits : Z;
  o_step : Z;
  o_algorithm : HashAlgorithm;
  o_window : Z
}.

Section Engine.

(** [createDigest(algorithm, hmacKey, counter)] of the crypto plugin; it
    may throw. *)
Variable createDigest : HashAlgorithm -> list Z -> list Z -> exc (list Z).

(** [Buffer.from(secret, 'ascii')] *)
Definition secret_bytes (s : jstr) : list Z := map (fun c => Z.of_nat (code c)) s.

(** [totpPadSecret(secret, encoding, minLength)]: when the secret is
    shorter than [minLength], [new Array(minLength - currentLength + 1)
    .join(hexSecret)] repeats it and the result is cut to [minLength]. *)
Definition totpPadSecret (secret : jstr) (minLength : nat) : list Z :=
  let currentLength := List.length secret in
  let hexSecret := secret_bytes secret in
  if (currentLength <? minLength)%nat then
    firstn minLength (List.concat (repeat hexSecret (minLength - currentLength)))
  else hexSecret.

Definition totpCreateHmacKey (algorithm : HashAlgorithm) (secret : jstr) : list Z :=
  match algorithm with
  | sha1 => totpPadSecret secret 20
  | sha256 => totpPadSecret secret 32
  | sha512 => totpPadSecret secret 64
  end.

(** [hotpCounter]: the counter as 16 hex digits, i.e. 8 bytes big-endian
    (a counter is non-negative for clock values from 1970 on; it is
    taken modulo 2^64 here). *)
Definition hotpCounter (counter : Z) : list Z := Sha.word_be 8 (counter mod 2 ^ 64).

(** [utils.padStart(value, maxLength, fillString)] *)
Definition padStart (value : jstr) (maxLength : Z) (fill : ascii) : jstr :=
  if Z.of_nat (List.length value) >=? maxLength then value
  else
    let padding := repeat fill (Z.to_nat maxLength) in
    let s := padding ++ value in
    skipn (List.length s - Z.to_nat maxLength) s.

(** [digest[i]]; an index past the end gives [undefined], which every
    mask below turns into [0]. *)
Definition byte_at (digest : list Z) (i : Z) : Z := nth (Z.to_nat i) digest 0.

(** [hotpDigestToToken(hexDigest, digits)]: dynamic truncation. *)
Definition hotpDigestToToken (digest : list Z) (digits : Z) : jstr :=
  let offset := Z.land (byte_at digest (Z.of_nat (List.length digest) - 1)) 15 in
  let binary :=
    Z.lor (Z.lor (Z.shiftl (Z.land (byte_at digest offset) 127) 24)
                 (Z.shiftl (Z.land (byte_at digest (offset + 1)) 255) 16))
          (Z.lor (Z.shiftl (Z.land (byte_at digest (offset + 2)) 255) 8)
                 (Z.land (byte_at digest (offset + 3)) 255)) in
  let token := binary mod 10 ^ digits in
  padStart (number_to_string token) digits "0"%char.

(** [hotpToken(secret, counter, options)] with the TOTP key derivation. *)
Definition hotpToken (secret : jstr) (counter : Z) (o : OtpOptions) : exc jstr :=
  digest <- createDigest (o_algorithm o) (totpCreateHmacKey (o_algorithm o) secret)
                         (hotpCounter counter) ;;
  Ok (hotpDigestToToken digest (o_digits o)).

(** [totpCounter(epoch, step)] is [Math.floor(epoch / step / 1000)]. *)
Definition totpCounter (epoch step : Z) : Z := epoch / (step * 1000).

Definition totpToken (secret : jstr) (o : OtpOptions) (epoch : Z) : exc jstr :=
  hotpToken secret (totpCounter epoch (o_step o)) o.

(** [isTokenValid]: [/^(\d+)$/]. *)
Definition isTokenValid (token : jstr) : bool :=
  match token with
  | [] => false
  | _ => forallb is_digit token
  end.

Definition totpCheck (token secret : jstr) (o : OtpOptions) (epoch : Z) : exc bool :=
  if negb (isTokenValid token) then Ok false
  else
    systemToken <- totpToken secret o epoch ;;
    Ok (jstr_eqb token systemToken).

(** [totpEpochsInWindow(epoch, direction, deltaPerEpoch, numOfEpoches)]:
    [epoch + direction * i * delta] for [i = 1 .. numOfEpoches]. *)
Definition totpEpochsInWindow (epoch direction delta : Z) (num : Z) : list Z :=
  map (fun i => epoch + direction * Z.of_nat i * delta) (seq 1 (Z.to_nat num)).

(** [totpCheckByEpoch]: [epochs.some(...)], 1-based position of the
    first match. *)
Fixpoint totpCheckByEpoch_from (pos : nat) (epochs : list Z) (token secret : jstr)
    (o : OtpOptions) : exc (option nat) :=
  match epochs with
  | [] => Ok None
  | e :: rest =>
      ok <- totpCheck token secret o e ;;
      if ok then Ok (Some pos) else totpCheckByEpoch_from (S pos) rest token secret o
  end.

Definition totpCheckByEpoch (epochs : list Z) (token secret : jstr) (o : OtpOptions)
    : exc (option nat) :=
  totpCheckByEpoch_from 1 epochs token secret o.

(** [getWindowBounds(options)]: a number window [w] gives the bounds
    [[Math.abs(w), Math.abs(w)]] (past, future). *)
Definition getWindowBounds (o : OtpOptions) : Z * Z :=
  (Z.abs (o_window o), Z.abs (o_window o)).

(** [totpCheckWithWindow]: the current epoch, then the past ones, then
    the future ones. *)
Definition totpCheckWithWindow (token secret : jstr) (o : OtpOptions) (epoch : Z)
    : exc (option Z) :=
  cur <- totpCheck token secret o epoch ;;
  if cur then Ok (Some 0)
  else
    let bounds := getWindowBounds o in
    let delta := o_step o * 1000 in
    backward <- totpCheckByEpoch (totpEpochsInWindow epoch (-1) delta (fst bounds))
                                 token secret o ;;
    match backward with
    | Some p => Ok (Some (- Z.of_nat p))
    | None =>
        forward <- totpCheckByEpoch (totpEpochsInWindow epoch 1 delta (snd bounds))
                                    token secret o ;;
        Ok (option_map Z.of_nat forward)
    end.

(** [totp.generate(secret)] and [totp.check(token, secret)], the epoch
    being [Date.now()]. *)
Definition totp_generate (now : Z) (o : OtpOptions) (secret : jstr) : exc jstr :=
  totpToken secret o now.

Definition totp_check (now : Z) (o : OtpOptions) (token secret : jstr) : exc bool :=
  delta <- totpCheckWithWindow token secret o now ;;
  Ok (match delta with Some _ => true | None => false end).

(** ** TOTPService: generateTOTP (lines 53-82) and validateTOTP (lines 87-110) *)

(** [TOTPOptions] of src/types: every field optional. *)
Inductive Algorithm := SHA1 | SHA256 | SHA512.
Inductive Digits := D6 | D7 | D8.

Record TOTPOptions := {
  algorithm : option Algorithm;
  digits : option Digits;
  period : option Z;
  window : option Z
}.

Definition no_options : TOTPOptions :=
  {| algorithm := None; digits := None; period := None; window := None |}.

Definition digits_num (d : Digits) : Z :=
  match d with D6 => 6 | D7 => 7 | D8 => 8 end.

(** [mapAlgorithm] (lines 342-355) *)
Definition mapAlgorithm (a : option Algorithm) : HashAlgorithm :=
  match a with
  | Some SHA1 => sha1
  | Some SHA256 => sha256
  | Some SHA512 => sha512
  | None => sha1
  end.

(** [v || d] on an optional number: [undefined] and [0] give [d]. *)
Definition or_default (v : option Z) (d : Z) : Z :=
  match v with
  | Some x => if x =? 0 then d else x
  | None => d
  end.

(** The options object built by both methods and assigned to
    [totp.options]. *)
Definition totpOptions (options : TOTPOptions) : OtpOptions := {|
  o_digits := match digits options with Some d => digits_num d | None => 6 end;
  o_step := or_default (period options) 30;
  o_algorithm := mapAlgorithm (algorithm options);
  o_window := or_default (window options) 1
|}.

Definition generateTOTP (now : Z) (secret : jstr) (options : TOTPOptions) : exc jstr :=
  rethrow_with "Failed to generate TOTP: "
    (cleanSecret <- validateAndCleanSecret secret ;;
     totp_generate now (totpOptions options) cleanSecret).

(** The [try] block of [validateTOTP]. *)
Definition validateTOTP_try (now : Z) (code secret : jstr) (options : TOTPOptions)
    : exc bool :=
  cleanSecret <- validateAndCleanSecret secret ;;
  totp_check now (totpOptions options) code cleanSecret.

Definition validateTOTP (now : Z) (code secret : jstr) (options : TOTPOptions)
    : exc bool :=
  match validateTOTP_try now code secret options with
  | Ok b => Ok b
  | Throw _ => Ok false
  end.

End Engine.

(** The digest plugin with the FIPS 180-4 hashes. *)
Definition cryptoDigest (a : HashAlgorithm) (key msg : list Z) : exc (list Z) :=
  match a with
  | sha1 => Ok (Sha.hmac Sha.sha1 64 key msg)
  | sha256 => Ok (Sha.hmac Sha.sha256 64 key msg)
  | sha512 => Ok (Sha.hmac Sha.sha512 128 key msg)
  end.

(** The RFC 6238 SHA1 seed 12345678901234567890, Base32-encoded. *)
Definition rfc_seed_base32 : jstr := str "GEZDGNBVGY3TQOJQGEZDGNBVGY3TQOJQ".

(** ** Platform URL functions

    [encodeURIComponent], [decodeURIComponent], the
    application/x-www-form-urlencoded serializer and parser behind
    [URLSearchParams], and the WHATWG URL parser behind [new URL] for
    URLs of the shape [scheme://authority/path?query#fragment].  A string
    is taken as its UTF-8 bytes; on decoding, the lead byte of a
    multi-byte escape must be in C2..F4 and be followed by escaped
    continuation bytes. *)

Definition in_chars (cs : string) (c : ascii) : bool :=
  existsb (ceq c) (list_ascii_of_string cs).

Definition is_alpha (c : ascii) : bool := in_range 65 90 c || in_range 97 122 c.
Definition is_alnum (c : ascii) : bool := is_alpha c || is_digit c.

Definition hex_value (c : ascii) : option nat :=
  if in_range 48 57 c then Some (code c - 48)%nat
  else if in_range 65 70 c then Some (code c - 55)%nat
  else if in_range 97 102 c then Some (code c - 87)%nat
  else None.

Definition hex_upper (n : nat) : ascii :=
  if (n <? 10)%nat then chr (48 + n) else chr (55 + n).

Definition percent_encode_char (c : ascii) : jstr :=
  ["%"%char; hex_upper (code c / 16); hex_upper (code c mod 16)].

(** Encode the characters of [s] that belong to a percent-encode set. *)
Definition percent_encode (in_set : ascii -> bool) (s : jstr) : jstr :=
  flat_map (fun c => if in_set c then percent_encode_char c else [c]) s.

(** [encodeURIComponent]: everything but [A-Za-z0-9-_.!~*'()] is escaped. *)
Definition uri_unreserved (c : ascii) : bool := is_alnum c || in_chars "-_.!~*'()" c.

Definition encodeURIComponent (s : jstr) : jstr :=
  percent_encode (fun c => negb (uri_unreserved c)) s.

(** [decodeURIComponent] *)
Inductive uri_unit := Raw (c : ascii) | Esc (b : nat).

Fixpoint uri_units (s : jstr) : exc (list uri_unit) :=
  match s with
  | [] => Ok []
  | c :: t =>
      if ceq c "%"%char then
        match t with
        | h1 :: h2 :: r =>
            match hex_value h1, hex_value h2 with
            | Some a, Some b => rest <- uri_units r ;; Ok (Esc (16 * a + b) :: rest)
            | _, _ => Throw "URI malformed"
            end
        | _ => Throw "URI malformed"
        end
      else rest <- uri_units t ;; Ok (Raw c :: rest)
  end.

Definition utf8_lead_len (b : nat) : option nat :=
  if (b <? 194)%nat then None
  else if (b <? 224)%nat then Some 1%nat
  else if (b <? 240)%nat then Some 2%nat
  else if (b <? 245)%nat then Some 3%nat
  else None.

Fixpoint utf8_ok (need : nat) (us : list uri_unit) : bool :=
  match us with
  | [] => (need =? 0)%nat
  | Esc b :: r =>
      match need with
      | S n => (128 <=? b)%nat && (b <? 192)%nat && utf8_ok n r
      | O =>
          if (b <? 128)%nat then utf8_ok 0 r
          else match utf8_lead_len b with
               | Some k => utf8_ok k r
               | None => false
               end
      end
  | Raw _ :: r => (need =? 0)%nat && utf8_ok 0 r
  end.

Definition unit_char (u : uri_unit) : ascii :=
  match u with Raw c => c | Esc b => chr b end.

Definition decodeURIComponent (s : jstr) : exc jstr :=
  us <- uri_units s ;;
  if utf8_ok 0 us then Ok (map unit_char us) else Throw "URI malformed".

(** application/x-www-form-urlencoded serializer. *)
Definition form_safe (c : ascii) : bool := is_alnum c || in_chars "*-._" c.

Definition form_encode (s : jstr) : jstr :=
  flat_map (fun c => if form_safe c then [c]
                     else if (code c =? 32)%nat then ["+"%char]
                     else percent_encode_char c) s.

Fixpoint join_amp (parts : list jstr) : jstr :=
  match parts with
  | [] => []
  | [p] => p
  | p :: rest => p ++ ["&"%char] ++ join_amp rest
  end.

(** [new URLSearchParams(record).toString()] *)
Definition serialize_params (ps : list (jstr * jstr)) : jstr :=
  join_amp (map (fun '(n, v) => form_encode n ++ ["="%char] ++ form_encode v) ps).

(** application/x-www-form-urlencoded parser. *)
Fixpoint percent_decode (s : jstr) : jstr :=
  match s with
  | [] => []
  | c :: t =>
      if ceq c "%"%char then
        match t with
        | h1 :: h2 :: r =>
            match hex_value h1, hex_value h2 with
            | Some a, Some b => chr (16 * a + b) :: percent_decode r
            | _, _ => c :: percent_decode t
            end
        | _ => c :: percent_decode t
        end
      else c :: percent_decode t
  end.

Definition plus_to_space (s : jstr) : jstr :=
  map (fun c => if ceq c "+"%char then " "%char else c) s.

(** [break_at p s]: the longest prefix of [s] without a character
    satisfying [p], and the rest. *)
Fixpoint break_at (p : ascii -> bool) (s : jstr) : jstr * jstr :=
  match s with
  | [] => ([], [])
  | c :: r => if p c then ([], s) else let '(a, b) := break_at p r in (c :: a, b)
  end.

Definition form_parse (q : jstr) : list (jstr * jstr) :=
  flat_map (fun seq =>
    match seq with
    | [] => []
    | _ =>
        let '(name, rest) := break_at (fun c => ceq c "="%char) seq in
        let value := skipn 1 rest in
        [(percent_decode (plus_to_space name), percent_decode (plus_to_space value))]
    end) (js_split "&"%char q).

(** [searchParams.get(name)]: the first value, or [null]. *)
Fixpoint params_get (ps : list (jstr * jstr)) (name : jstr) : option jstr :=
  match ps with
  | [] => None
  | (n, v) :: rest => if jstr_eqb n name then Some v else params_get rest name
  end.

(** [new URL(input)] *)
Record URL := {
  protocol : jstr;
  hostname : jstr;
  pathname : jstr;
  query : jstr      (** the query without its leading [?] *)
}.

Definition is_c0_or_space (c : ascii) : bool := (code c <=? 32)%nat.
Definition trim_c0 (s : jstr) : jstr :=
  rev (drop_while is_c0_or_space (rev (drop_while is_c0_or_space s))).
Definition strip_tab_newline (s : jstr) : jstr :=
  filter (fun c => negb (in_range 9 10 c || (code c =? 13)%nat)) s.

Definition is_scheme_char (c : ascii) : bool := is_alnum c || in_chars "+-." c.

Definition scheme_split (s : jstr) : option (jstr * jstr) :=
  match s with
  | c :: _ =>
      if is_alpha c then
        match break_at (fun c => negb (is_scheme_char c)) s with
        | (sch, ":"%char :: after) => Some (toLowerCase sch, after)
        | _ => None
        end
      else None
  | [] => None
  end.

Definition c0_control_set (c : ascii) : bool := (code c <? 32)%nat || (126 <? code c)%nat.
(** Query percent-encode set: C0 controls, space, double quote, [#], [<], [>]. *)
Definition query_set (c : ascii) : bool :=
  c0_control_set c || in_chars " #<>" c || (code c =? 34)%nat.
Definition path_set (c : ascii) : bool := query_set c || in_chars "?`{}" c.

Definition forbidden_host_char (c : ascii) : bool :=
  (code c =? 0)%nat || in_range 9 10 c || (code c =? 13)%nat
  || in_chars " #/:<>?@[\]^|" c.

(** Authority: credentials up to the last ['@'], then host and port. *)
Definition parse_authority (auth : jstr) : exc jstr :=
  let hostport := rev (fst (break_at (fun c => ceq c "@"%char) (rev auth))) in
  let has_credentials := includes_char "@"%char auth in
  let '(host, port) := break_at (fun c => ceq c ":"%char) hostport in
  let port_ok :=
    match port with
    | [] => true
    | _ :: digits =>
        forallb is_digit digits
        && (match parseInt digits with JNum v => v <=? 65535 | JNaN => true end)
    end in
  if negb port_ok then Throw "Invalid URL"
  else if is_empty host && (has_credentials || negb (is_empty port))
  then Throw "Invalid URL"
  else if existsb forbidden_host_char host then Throw "Invalid URL"
  else Ok (percent_encode c0_control_set host).

(** Path segments: ["."] and [".."] (also written with [%2e]). *)
Definition is_single_dot (seg : jstr) : bool :=
  jstr_eqb seg (str ".") || jstr_eqb (toLowerCase seg) (str "%2e").
Definition is_double_dot (seg : jstr) : bool :=
  let s := toLowerCase seg in
  jstr_eqb s (str "..") || jstr_eqb s (str ".%2e") || jstr_eqb s (str "%2e.")
  || jstr_eqb s (str "%2e%2e").

Fixpoint push_segments (path : list jstr) (segs : list jstr) : list jstr :=
  match segs with
  | [] => path
  | seg :: rest =>
      let tail_empty := match rest with [] => [[]] | _ => [] end in
      if is_double_dot seg then push_segments (removelast path ++ tail_empty) rest
      else if is_single_dot seg then push_segments (path ++ tail_empty) rest
      else push_segments (path ++ [seg]) rest
  end.

(** The path after its leading ['/']: its segments, percent-encoded. *)
Definition parse_path (p : jstr) : jstr :=
  flat_map (fun seg => "/"%char :: seg)
    (push_segments [] (map (percent_encode path_set) (js_split "/"%char p))).

Definition parse_url (input : jstr) : exc URL :=
  let s := strip_tab_newline (trim_c0 input) in
  match scheme_split s with
  | None => Throw "Invalid URL"
  | Some (scheme, rest) =>
      let protocol := scheme ++ [":"%char] in
      let '(before_fragment, _) := break_at (fun c => ceq c "#"%char) rest in
      let '(hier, q) := break_at (fun c => ceq c "?"%char) before_fragment in
      let query := percent_encode query_set (skipn 1 q) in
      match hier with
      | "/"%char :: "/"%char :: auth_path =>
          let '(auth, path) := break_at (fun c => ceq c "/"%char) auth_path in
          host <- parse_authority auth ;;
          let pathname := match path with [] => [] | _ :: p => parse_path p end in
          Ok {| protocol := protocol; hostname := host; pathname := pathname; query := query |}
      | "/"%char :: p =>
          Ok {| protocol := protocol; hostname := []; pathname := parse_path p; query := query |}
      | _ =>
          Ok {| protocol := protocol; hostname := [];
                pathname := percent_encode c0_control_set hier; query := query |}
      end
  end.

(** ** Provisioning URIs: parseOTPAuthURL (lines 128-208) and
    createOTPAuthURL (lines 274-292) *)

(** [QRCodeResult] of src/types; the parser sets every field but
    [counter]. *)
Record QRCodeResult := {
  qr_type : jstr;
  qr_label : jstr;
  qr_secret : jstr;
  qr_issuer : option jstr;
  qr_algorithm : jstr;
  qr_digits : jsnum;
  qr_period : jsnum;
  qr_counter : option jsnum
}.

Definition jstr_in (s : jstr) (l : list jstr) : bool := existsb (jstr_eqb s) l.

(** [x || d] on the result of [params.get]. *)
Definition or_str (v : option jstr) (d : jstr) : jstr :=
  match v with
  | Some x => if is_empty x then d else x
  | None => d
  end.

(** Lines 154-168: the [issuer] and [accountName] read from the label
    and the [issuer] query parameter. *)
Definition parse_label (pathLabel : jstr) (issuerParam : option jstr) : jstr * jstr :=
  let issuer := or_str issuerParam [] in
  let accountName := pathLabel in
  if includes_char ":"%char pathLabel && is_empty issuer then
    let parts := js_split_limit ":"%char 2 pathLabel in
    (nth 0 parts [], nth 1 parts [])
  else if includes_char ":"%char pathLabel && negb (is_empty issuer) then
    let parts := js_split_limit ":"%char 2 pathLabel in
    (issuer, or_str (Some (nth 1 parts [])) (nth 0 parts []))
  else (issuer, accountName).

(** Lines 188-199: [digits], [algorithm] and [period] brought back to
    their defaults. *)
Definition num_in (n : jsnum) (l : list Z) : bool :=
  match n with JNum z => existsb (Z.eqb z) l | JNaN => false end.
Definition num_lt (n : jsnum) (b : Z) : bool :=
  match n with JNum z => z <? b | JNaN => false end.
Definition num_gt (n : jsnum) (b : Z) : bool :=
  match n with JNum z => b <? z | JNaN => false end.

Definition normalize_digits (r : QRCodeResult) : QRCodeResult :=
  if negb (num_in (qr_digits r) [6; 7; 8]) then
    {| qr_type := qr_type r; qr_label := qr_label r; qr_secret := qr_secret r;
       qr_issuer := qr_issuer r; qr_algorithm := qr_algorithm r; qr_digits := JNum 6;
       qr_period := qr_period r; qr_counter := qr_counter r |}
  else r.

Definition normalize_algorithm (r : QRCodeResult) : QRCodeResult :=
  if negb (jstr_in (qr_algorithm r) [str "SHA1"; str "SHA256"; str "SHA512"]) then
    {| qr_type := qr_type r; qr_label := qr_label r; qr_secret := qr_secret r;
       qr_issuer := qr_issuer r; qr_algorithm := str "SHA1"; qr_digits := qr_digits r;
       qr_period := qr_period r; qr_counter := qr_counter r |}
  else r.

Definition normalize_period (r : QRCodeResult) : QRCodeResult :=
  if num_lt (qr_period r) 1 || num_gt (qr_period r) 300 then
    {| qr_type := qr_type r; qr_label := qr_label r; qr_secret := qr_secret r;
       qr_issuer := qr_issuer r; qr_algorithm := qr_algorithm r; qr_digits := qr_digits r;
       qr_period := JNum 30; qr_counter := qr_counter r |}
  else r.

Definition parseOTPAuthURL (url : jstr) : exc QRCodeResult :=
  rethrow_with "Invalid OTPAuth URL: "
   (urlObj <- parse_url url ;;
    if negb (jstr_eqb (protocol urlObj) (str "otpauth:")) then
      Throw "Invalid OTPAuth URL protocol"
    else
    let type := toLowerCase (hostname urlObj) in
    if negb (jstr_eqb type (str "totp") || jstr_eqb type (str "hotp")) then
      Throw "Unsupported OTP type. Only TOTP and HOTP are supported"
    else
    let params := form_parse (query urlObj) in
    match params_get params (str "secret") with
    | None | Some [] => Throw "Secret parameter is required"
    | Some secret =>
      if negb (validateSecret secret) then Throw "Invalid secret format"
      else
      pathLabel <- decodeURIComponent (substring1 (pathname urlObj)) ;;
      let '(issuer, _) := parse_label pathLabel (params_get params (str "issuer")) in
      let result := {|
        qr_type := type;
        qr_label := pathLabel;
        qr_secret := secret;
        qr_issuer := if is_empty issuer then None else Some issuer;
        qr_algorithm :=
          or_str (option_map toUpperCase (params_get params (str "algorithm"))) (str "SHA1");
        qr_digits := parseInt (or_str (params_get params (str "digits")) (str "6"));
        qr_period := parseInt (or_str (params_get params (str "period")) (str "30"));
        qr_counter :=
          if jstr_eqb type (str "hotp") then
            match params_get params (str "counter") with
            | Some c => if is_empty c then None else Some (parseInt c)
            | None => None
            end
          else None |} in
      Ok (normalize_period (normalize_algorithm (normalize_digits result)))
    end).

Definition algorithm_name (a : Algorithm) : jstr :=
  match a with SHA1 => str "SHA1" | SHA256 => str "SHA256" | SHA512 => str "SHA512" end.

Definition createOTPAuthURL (issuer accountName secret : jstr) (options : TOTPOptions)
    : exc jstr :=
  cleanSecret <- validateAndCleanSecret secret ;;
  let label := if is_empty issuer then accountName else issuer ++ [":"%char] ++ accountName in
  let params := [
    (str "secret", cleanSecret);
    (str "issuer", issuer);
    (str "algorithm", match algorithm options with
                      | Some a => algorithm_name a
                      | None => str "SHA1"
                      end);
    (str "digits", number_to_string (match digits options with
                                     | Some d => digits_num d
                                     | None => 6
                                     end));
    (str "period", number_to_string (or_default (period options) 30))] in
  Ok (str "otpauth://totp/" ++ encodeURIComponent label ++ ["?"%char]
      ++ serialize_params params).

(** The four fields that the normalisation of lines 188-199 leaves alone. *)
Definition kept_fields (r : QRCodeResult) : jstr * jstr * jstr * option jstr :=
  (qr_type r, qr_label r, qr_secret r, qr_issuer r).

(** Alphabets of the encoders: the characters [encodeURIComponent] and
    the form serializer can output, and those of a serialized query. *)
Definition enc_char (c : ascii) : bool := is_alnum c || in_chars "-_.!~*'()%" c.
Definition form_char (c : ascii) : bool := is_alnum c || in_chars "*-._+%" c.
Definition query_char (c : ascii) : bool := form_char c || in_chars "=&" c.

(** Strings of 7-bit characters, on which a character is one UTF-8 byte. *)
Definition ascii_str (s : jstr) : Prop := Forall (fun c => (code c < 128)%nat) s.

(** All 256 characters. *)
Definition all_chars : list ascii := map ascii_of_nat (seq 0 256).

(** ** TOTPService: [getCurrentTimeSlot] and [getTimeRemaining] (lines 213-225)

    [now] is [Date.now()] in milliseconds.  For integral [now] and
    [period] with [0 <= now < 2^52] and [period > 0], the floating-point
    quotients [now / 1000 / period] and [now / 1000] are close enough to
    the exact ones that [Math.floor] gives the integer quotients below. *)
Definition getCurrentTimeSlot (now period : Z) : Z := now / 1000 / period.

Definition getTimeRemaining (now period : Z) : Z :=
  let now_s := now / 1000 in
  let currentSlot := now_s / period in
  let nextSlotStart := (currentSlot + 1) * period in
  nextSlotStart - now_s.

(** ** TOTPService: [generateTOTPRange] (lines 230-261)

    Each iteration replaces [Date.now] by [() => timestamp * 1000] while
    it calls [generateTOTP], so the code of an entry is [generateTOTP] at
    that clock value; an exception of [generateTOTP] leaves the loop
    (after [finally] restores [Date.now]) and propagates. *)
Record TimeSlotCode := {
  tc_code : jstr;
  tc_timeSlot : Z;
  tc_validFrom : Z;  (* [new Date(timestamp * 1000)], in milliseconds *)
  tc_validTo : Z     (* [new Date((timestamp + period) * 1000)] *)
}.

Section Range.
Variable createDigest : HashAlgorithm -> list Z -> list Z -> exc (list Z).

(** [for (let i = -Math.floor(periods / 2); i <= Math.floor(periods / 2); i++)] *)
Definition range_indices (periods : Z) : list Z :=
  let half := periods / 2 in
  map (fun k => - half + Z.of_nat k) (seq 0 (Z.to_nat (2 * half + 1))).

Fixpoint range_loop (secret : jstr) (options : TOTPOptions) (period currentTimeSlot : Z)
    (is : list Z) : exc (list TimeSlotCode) :=
  match is with
  | [] => Ok []
  | i :: rest =>
      let timeSlot := currentTimeSlot + i in
      let timestamp := timeSlot * period in
      code <- generateTOTP createDigest (timestamp * 1000) secret options ;;
      results <- range_loop secret options period currentTimeSlot rest ;;
      Ok ({| tc_code := code; tc_timeSlot := timeSlot;
             tc_validFrom := timestamp * 1000;
             tc_validTo := (timestamp + period) * 1000 |} :: results)
  end.

Definition generateTOTPRange (now : Z) (secret : jstr) (periods : Z) (options : TOTPOptions)
    : exc (list TimeSlotCode) :=
  let period := or_default (period options) 30 in
  let currentTimeSlot := getCurrentTimeSlot now period in
  range_loop secret options period currentTimeSlot (range_indices periods).

End Range.

(** ** thirty-two [encode] and TOTPService [generateTestSecret] (lines 266-269)

    [thirtyTwo.encode(plain)] walks the bytes five bits at a time
    ([shiftIndex] is the bit position inside [plain[i]]), writes one
    character of the RFC 4648 alphabet per quintet into a buffer of
    [quintetCount(plain) * 8] bytes, and fills the rest with ['=']. *)
Definition charTable : jstr := str "ABCDEFGHIJKLMNOPQRSTUVWXYZ234567".

Definition quintetCount (n : nat) : nat :=
  let quintets := (n / 5)%nat in
  if (n mod 5 =? 0)%nat then quintets else S quintets.

(** [charTable.charCodeAt(digit)]; out of range it is [NaN], stored as 0
    in the buffer. *)
Definition charCodeAt (digit : Z) : Z :=
  if (0 <=? digit) && (digit <? 32) then Z.of_nat (code (nth (Z.to_nat digit) charTable "A"%char))
  else 0.

(** The [while (i < plain.length)] loop; each round consumes five bits,
    so [2 * plain.length + 1] rounds are always enough. *)
Fixpoint encode_loop (fuel : nat) (plain : list Z) (i shiftIndex : Z) : list Z :=
  match fuel with
  | O => []
  | S f =>
    if i <? Z.of_nat (List.length plain) then
      let current := nth (Z.to_nat i) plain 0 in
      if 3 <? shiftIndex then
        let digit := Z.land current (Z.shiftr 255 shiftIndex) in
        let shiftIndex' := (shiftIndex + 5) mod 8 in
        let next := if i + 1 <? Z.of_nat (List.length plain)
                    then nth (Z.to_nat (i + 1)) plain 0 else 0 in
        let digit' := Z.lor (Z.shiftl digit shiftIndex') (Z.shiftr next (8 - shiftIndex')) in
        charCodeAt digit' :: encode_loop f plain (i + 1) shiftIndex'
      else
        let digit := Z.land (Z.shiftr current (8 - (shiftIndex + 5))) 31 in
        let shiftIndex' := (shiftIndex + 5) mod 8 in
        charCodeAt digit ::
          encode_loop f plain (if shiftIndex' =? 0 then i + 1 else i) shiftIndex'
    else []
  end.

Definition thirtyTwo_encode (plain : list Z) : list Z :=
  let size := (quintetCount (List.length plain) * 8)%nat in
  let written := firstn size (encode_loop (2 * List.length plain + 1) plain 0 0) in
  written ++ repeat 61 (size - List.length written).

(** [thirtyTwo.encode(randomBytes).toString().replace(/=/g, '')], where
    [randomBytes] is [Crypto.getRandomBytes(20)]. *)
Definition generateTestSecret (randomBytes : list Z) : jstr :=
  filter (fun c => negb (ceq c "="%char))
    (map (fun b => chr (Z.to_nat b)) (thirtyTwo_encode randomBytes)).

(** ** HomeScreen: the account list (src/screens/HomeScreen.tsx, lines 268-334)

    The fields of [LocalTOTPAccount] that [HomeScreen] writes. *)
Record LocalTOTPAccount := {
  acc_id : jstr;
  acc_serviceName : jstr;
  acc_accountName : jstr;
  acc_secret : jstr;
  acc_algorithm : jstr;
  acc_digits : jsnum;
  acc_period : jsnum;
  acc_syncStatus : jstr;
  acc_lastModified : Z
}.

(** [Omit<LocalTOTPAccount, 'id' | 'lastModified' | 'syncStatus'>] *)
Record AccountData := {
  ad_serviceName : jstr;
  ad_accountName : jstr;
  ad_secret : jstr;
  ad_algorithm : jstr;
  ad_digits : jsnum;
  ad_period : jsnum
}.

(** [handleAddAccount]: [setAccounts(prev => [...prev, newAccount])];
    [id] is [Date.now().toString()] and [lastModified] a second
    [Date.now()]. *)
Definition handleAddAccount (nowId nowModified : Z) (accountData : AccountData)
    (prev : list LocalTOTPAccount) : list LocalTOTPAccount :=
  prev ++ [{| acc_id := number_to_string nowId;
              acc_serviceName := ad_serviceName accountData;
              acc_accountName := ad_accountName accountData;
              acc_secret := ad_secret accountData;
              acc_algorithm := ad_algorithm accountData;
              acc_digits := ad_digits accountData;
              acc_period := ad_period accountData;
              acc_syncStatus := str "pending";
              acc_lastModified := nowModified |}].

(** The [onPress] of [handleDeleteAccount]:
    [prev.filter(account => account.id !== accountId)]. *)
Definition handleDeleteAccount (accountId : jstr) (prev : list LocalTOTPAccount)
    : list LocalTOTPAccount :=
  filter (fun a => negb (jstr_eqb (acc_id a) accountId)) prev.

(** [n || d] on a number: [NaN] and [0] give [d]. *)
Definition or_num (n : jsnum) (d : Z) : jsnum :=
  match n with
  | JNum z => if z =? 0 then JNum d else n
  | JNaN => JNum d
  end.

(** The account data built by [handleQRScanSuccess] from a parsed URI. *)
Definition scannedAccountData (result : QRCodeResult) : AccountData := {|
  ad_serviceName := or_str (nth_error (js_split ":"%char (qr_label result)) 0)
                           (str "Unknown Service");
  ad_accountName := or_str (nth_error (js_split ":"%char (qr_label result)) 1)
                           (qr_label result);
  ad_secret := qr_secret result;
  ad_algorithm := or_str (Some (qr_algorithm result)) (str "SHA1");
  ad_digits := or_num (qr_digits result) 6;
  ad_period := or_num (qr_period result) 30
|}.

Definition handleQRScanSuccess (nowId nowModified : Z) (result : QRCodeResult)
    (prev : list LocalTOTPAccount) : list LocalTOTPAccount :=
  handleAddAccount nowId nowModified (scannedAccountData result) prev.

(** [handleEditAccount]: when an account is being edited,
    [prev.map(account => account.id === editingAccount.id ? updatedAccount : account)];
    otherwise the list is left as it is. *)
Definition handleEditAccount (editingAccount : option LocalTOTPAccount) (nowModified : Z)
    (accountData : AccountData) (prev : list LocalTOTPAccount) : list LocalTOTPAccount :=
  match editingAccount with
  | Some ea =>
      let updatedAccount := {|
        acc_id := acc_id ea;
        acc_serviceName := ad_serviceName accountData;
        acc_accountName := ad_accountName accountData;
        acc_secret := ad_secret accountData;
        acc_algorithm := ad_algorithm accountData;
        acc_digits := ad_digits accountData;
        acc_period := ad_period accountData;
        acc_syncStatus := str "pending";
        acc_lastModified := nowModified |} in
      map (fun account => if jstr_eqb (acc_id account) (acc_id ea) then updatedAccount
                          else account) prev
  | None => prev
  end.

(** [s.startsWith(p)] and [s.includes(sub)] for a string needle. *)
Fixpoint starts_with (p s : jstr) : bool :=
  match p, s with
  | [], _ => true
  | c :: p', d :: s' => ceq c d && starts_with p' s'
  | _ :: _, [] => false
  end.

Fixpoint str_includes (s sub : jstr) : bool :=
  starts_with sub s ||
  match s with
  | [] => false
  | _ :: r => str_includes r sub
  end.

(** [filteredAccounts]: the accounts whose service name or account name
    contains the search query, ignoring case. *)
Definition filteredAccounts (searchQuery : jstr) (accounts : list LocalTOTPAccount)
    : list LocalTOTPAccount :=
  filter (fun account =>
    str_includes (toLowerCase (acc_serviceName account)) (toLowerCase searchQuery) ||
    str_includes (toLowerCase (acc_accountName account)) (toLowerCase searchQuery))
    accounts.

(** A [totp.check] answer that cannot be [true]. *)
Definition not_true (r : exc bool) : Prop := r = Ok false \/ exists m, r = Throw m.

(** ** Windows given as arbitrary JavaScript numbers

    [options.window] is a JavaScript number, which may also be [Infinity],
    [-Infinity] or [NaN] (fractional windows are not modelled). The loop of
    otplib's [totpEpochsInWindow] runs while its counter is [<=] the bound,
    so it is run here with fuel: [None] stands for a run that has not
    ended within the fuel. *)
Inductive JSNumber := JSInt (z : Z) | JSInfinity | JSNegInfinity | JSNaN.

(** [TOTPOptions] with the window as a JavaScript number. *)
Record TOTPOptionsJS := {
  js_algorithm : option Algorithm;
  js_digits : option Digits;
  js_period : option Z;
  js_window : option JSNumber
}.

(** The same options with an integer (or absent) window. *)
Definition to_options (o : TOTPOptionsJS) : TOTPOptions := {|
  algorithm := js_algorithm o;
  digits := js_digits o;
  period := js_period o;
  window := match js_window o with Some (JSInt z) => Some z | _ => None end
|}.

(** [options?.window || 1]: [undefined], [0] and [NaN] give [1]. *)
Definition window_or_1 (w : option JSNumber) : JSNumber :=
  match w with
  | None | Some JSNaN => JSInt 1
  | Some (JSInt z) => if z =? 0 then JSInt 1 else JSInt z
  | Some n => n
  end.

(** [Math.abs]. *)
Definition js_abs (n : JSNumber) : JSNumber :=
  match n with
  | JSInt z => JSInt (Z.abs z)
  | JSInfinity | JSNegInfinity => JSInfinity
  | JSNaN => JSNaN
  end.

(** [i <= n] for an integer [i]. *)
Definition js_le_int (i : Z) (n : JSNumber) : bool :=
  match n with
  | JSInt z => i <=? z
  | JSInfinity => true
  | JSNegInfinity | JSNaN => false
  end.

(** [n === 0]. *)
Definition js_is_zero (n : JSNumber) : bool :=
  match n with JSInt z => z =? 0 | _ => false end.

(** [for (let i = 1; i <= numOfEpoches; i++) epochs.push(epoch + direction * i * deltaPerEpoch)],
    from counter [i] with the epochs pushed so far in [acc], for at most
    [fuel] tests of the loop condition. *)
Fixpoint epochs_loop (fuel : nat) (epoch direction delta : Z) (num : JSNumber) (i : Z)
    (acc : list Z) : option (list Z) :=
  match fuel with
  | O => None
  | S f =>
      if js_le_int i num
      then epochs_loop f epoch direction delta num (i + 1)
             (acc ++ [epoch + direction * i * delta])
      else Some acc
  end.

(** [totpEpochsInWindow] with a JavaScript number of epochs. *)
Definition totpEpochsInWindow_js (fuel : nat) (epoch direction delta : Z) (num : JSNumber)
    : option (list Z) :=
  if js_is_zero num then Some [] else epochs_loop fuel epoch direction delta num 1 [].

(** [totpCheckWithWindow] with the bounds [Math.abs(window)] of a
    JavaScript number [window]. *)
Definition totpCheckWithWindow_js (cd : HashAlgorithm -> list Z -> list Z -> exc (list Z))
    (fuel : nat) (token secret : jstr) (o : OtpOptions) (window : JSNumber) (epoch : Z)
    : option (exc (option Z)) :=
  match totpCheck cd token secret o epoch with
  | Throw m => Some (Throw m)
  | Ok true => Some (Ok (Some 0))
  | Ok false =>
      let bound := js_abs window in
      let delta := o_step o * 1000 in
      match totpEpochsInWindow_js fuel epoch (-1) delta bound with
      | None => None
      | Some past =>
          match totpCheckByEpoch cd past token secret o with
          | Throw m => Some (Throw m)
          | Ok (Some p) => Some (Ok (Some (- Z.of_nat p)))
          | Ok None =>
              match totpEpochsInWindow_js fuel epoch 1 delta bound with
              | None => None
              | Some future =>
                  Some (forward <- totpCheckByEpoch cd future token secret o ;;
                        Ok (option_map Z.of_nat forward))
              end
          end
      end
  end.

(** [validateTOTP] with a JavaScript number as window: [None] when the
    run has not ended within the fuel. *)
Definition validateTOTP_js (cd : HashAlgorithm -> list Z -> list Z -> exc (list Z))
    (fuel : nat) (now : Z) (code secret : jstr) (options : TOTPOptionsJS)
    : option (exc bool) :=
  match validateAndCleanSecret secret with
  | Throw _ => Some (Ok false)
  | Ok cleanSecret =>
      match totpCheckWithWindow_js cd fuel code cleanSecret (totpOptions (to_options options))
              (window_or_1 (js_window options)) now with
      | None => None
      | Some (Ok delta) => Some (Ok (match delta with Some _ => true | None => false end))
      | Some (Throw _) => Some (Ok false)
      end
  end.

(** * Readings of the specification

    Predicates used to state the claims; each is a direct reading of the
    spec's words, stated next to the code it is compared with. *)

(** A string matched by [^[A-Z2-7]+=*$]. *)
Definition matches_base32 (s : jstr) : Prop :=
  exists body pad, s = body ++ pad /\ body <> [] /\
    Forall (fun c => is_base32_char c = true) body /\ Forall (fun c => c = "="%char) pad.

(** The options of claim C3: period 30 and window 1. *)
Definition period30_window1 (alg : option Algorithm) (dig : option Digits) : TOTPOptions :=
  {| algorithm := alg; digits := dig; period := Some 30; window := Some 1 |}.

(* SPEC-DEFS-END *)

(** * Proofs *)

(** ** Secret codec *)

Lemma ceq_true (c d : ascii) : ceq c d = true <-> c = d.
Proof. apply Ascii.eqb_eq. Qed.

Lemma pad_not_base32 : is_base32_char "="%char = false.
Proof. reflexivity. Qed.

Lemma base32_tail_spec (s : jstr) :
  base32_tail s = true <->
  exists body pad, s = body ++ pad /\
    Forall (fun c => is_base32_char c = true) body /\ Forall (fun c => c = "="%char) pad.
Proof.
  induction s as [| c r IH]; simpl.
  - split; [intros _; exists [], []; auto | auto].
  - destruct (is_base32_char c) eqn:Hc.
    + rewrite IH. split.
      * intros (b & p & -> & Hb & Hp). exists (c :: b), p. auto.
      * intros (b & p & Heq & Hb & Hp). destruct b as [| c' b].
        -- simpl in Heq. subst p. inversion Hp; subst. rewrite pad_not_base32 in Hc.
           discriminate.
        -- inversion Heq; subst. inversion Hb; subst. exists b, p. auto.
    + split.
      * intros H. exists [], (c :: r). simpl. split; [reflexivity | split; [constructor |]].
        apply Forall_forall. intros x Hx. apply andb_true_iff in H as [H1 H2].
        destruct Hx as [<- | Hx]; [apply ceq_true; exact H1 |].
        apply ceq_true. apply (proj1 (forallb_forall _ _) H2 x Hx).
      * intros (b & p & Heq & Hb & Hp). destruct b as [| c' b].
        -- simpl in Heq. subst p. change (forallb is_pad (c :: r) = true).
           apply forallb_forall. intros x Hx.
           apply ceq_true. rewrite Forall_forall in Hp. apply Hp. exact Hx.
        -- inversion Heq; subst. inversion Hb; subst. congruence.
Qed.

Lemma base32_re_spec (s : jstr) : base32_re s = true <-> matches_base32 s.
Proof.
  unfold matches_base32. destruct s as [| c r]; simpl.
  - split; [discriminate |]. intros (b & p & Heq & Hne & _).
    destruct b; [contradiction | discriminate].
  - rewrite andb_true_iff, base32_tail_spec. split.
    + intros [Hc (b & p & -> & Hb & Hp)]. exists (c :: b), p.
      repeat split; auto; discriminate.
    + intros (b & p & Heq & Hne & Hb & Hp). destruct b as [| c' b]; [contradiction |].
      inversion Heq; subst. inversion Hb; subst. split; [assumption |].
      exists b, p. auto.
Qed.

Lemma clean_secret_nil : clean_secret [] = [].
Proof. reflexivity. Qed.

(** Claim C2: [validateAndCleanSecret] throws exactly when the cleaned
    input (white space removed, upper-cased) is empty, is not matched by
    [^[A-Z2-7]+=*$], or has fewer than 8 characters once its trailing
    ['='] are removed; it returns the cleaned string otherwise.  It
    rejects "not valid base32!!!" and "AAAA" and accepts
    "JBSWY3DPEHPK3PXP". *)
Theorem validateAndCleanSecret_fails_iff :
  (forall secret : jstr,
     (exists msg, validateAndCleanSecret secret = Throw msg) <->
     (clean_secret secret = [] \/ ~ matches_base32 (clean_secret secret)
      \/ (List.length (strip_trailing_pad (clean_secret secret)) < 8)%nat)) /\
  (exists msg, validateAndCleanSecret (str "not valid base32!!!") = Throw msg) /\
  (exists msg, validateAndCleanSecret (str "AAAA") = Throw msg) /\
  validateAndCleanSecret (str "JBSWY3DPEHPK3PXP") = Ok (str "JBSWY3DPEHPK3PXP").
Proof.
  split; [| split; [eexists; reflexivity | split; [eexists; reflexivity | reflexivity]]].
  intros secret. destruct secret as [| c r].
  - simpl. split; [auto | intros _; eexists; reflexivity].
  - cbv zeta. unfold validateAndCleanSecret.
    set (cl := clean_secret (c :: r)).
    destruct (base32_re cl) eqn:Hre; simpl.
    + destruct (Nat.ltb_spec (List.length (strip_trailing_pad cl)) 8) as [Hlt | Hge].
      * split; [auto | intros _; eexists; reflexivity].
      * split; [intros [m Hm]; discriminate |].
        apply base32_re_spec in Hre.
        intros [Hnil | [Hno | Hlt]]; [| contradiction | lia].
        destruct Hre as (b & p & Heq & Hne & _). rewrite Hnil in Heq.
        destruct b; [contradiction | discriminate].
    + split; [intros _; right; left | intros _; eexists; reflexivity].
      intros Hm. apply base32_re_spec in Hm. congruence.
Qed.

(** ** Code format: decimal strings and [padStart] *)

Lemma code_chr (n : nat) : (n < 256)%nat -> code (chr n) = n.
Proof. intros H. unfold code, chr. apply nat_ascii_embedding. exact H. Qed.

Lemma digit_char_is_digit (d : Z) : 0 <= d < 10 -> is_digit (digit_char d) = true.
Proof.
  intros Hd. unfold is_digit, in_range, digit_char.
  rewrite code_chr by lia. apply andb_true_iff. split; apply Nat.leb_le; lia.
Qed.

Lemma dec_aux_digits (f : nat) (n : Z) (acc : jstr) :
  0 <= n -> Forall (fun c => is_digit c = true) acc ->
  Forall (fun c => is_digit c = true) (dec_aux f n acc).
Proof.
  revert n acc. induction f as [| f IH]; intros n acc Hn Hacc; cbn [dec_aux]; [exact Hacc |].
  assert (Hd : is_digit (digit_char (n mod 10)) = true)
    by (apply digit_char_is_digit; apply Z.mod_pos_bound; lia).
  destruct (n <? 10); [constructor; assumption |].
  apply IH; [apply Z.div_pos; lia | constructor; assumption].
Qed.

Lemma pow10_succ (k : nat) : 10 ^ Z.of_nat (S k) = 10 * 10 ^ Z.of_nat k.
Proof. rewrite Nat2Z.inj_succ, Z.pow_succ_r by lia. reflexivity. Qed.

Lemma dec_aux_length (f : nat) (n : Z) (acc : jstr) (k : nat) :
  0 <= n < 10 ^ Z.of_nat k -> (1 <= k)%nat ->
  (List.length (dec_aux f n acc) <= k + List.length acc)%nat.
Proof.
  revert n acc k. induction f as [| f IH]; intros n acc k Hn Hk; cbn [dec_aux]; [lia |].
  destruct (Z.ltb_spec n 10) as [Hlt | Hge]; cbn [List.length]; [lia |].
  destruct k as [| [| k']]; [lia | change (10 ^ Z.of_nat 1) with 10 in Hn; lia |].
  specialize (IH (n / 10) (digit_char (n mod 10) :: acc) (S k')).
  cbn [List.length] in IH. assert (Hdiv : 0 <= n / 10 < 10 ^ Z.of_nat (S k')).
  { split; [apply Z.div_pos; lia |]. apply Z.div_lt_upper_bound; [lia |].
    rewrite <- pow10_succ. exact (proj2 Hn). }
  specialize (IH Hdiv ltac:(lia)). lia.
Qed.

Lemma number_to_string_digits (n : Z) :
  0 <= n -> Forall (fun c => is_digit c = true) (number_to_string n).
Proof.
  intros Hn. destruct n as [| p | p]; unfold number_to_string.
  - constructor; [reflexivity | constructor].
  - apply dec_aux_digits; [lia | constructor].
  - lia.
Qed.

Lemma number_to_string_length (n : Z) (k : nat) :
  0 <= n < 10 ^ Z.of_nat k -> (1 <= k)%nat -> (List.length (number_to_string n) <= k)%nat.
Proof.
  intros Hn Hk. destruct n as [| p | p]; unfold number_to_string.
  - cbn [List.length]. lia.
  - pose proof (dec_aux_length (Pos.size_nat p) (Zpos p) [] k Hn Hk) as H.
    cbn [List.length] in H. lia.
  - lia.
Qed.

Lemma Forall_skipn {A} (P : A -> Prop) (n : nat) (l : list A) :
  Forall P l -> Forall P (skipn n l).
Proof.
  intros H. rewrite <- (firstn_skipn n l) in H. apply Forall_app in H. apply H.
Qed.

Lemma padStart_shape (v : jstr) (m : nat) :
  (List.length v <= m)%nat -> Forall (fun c => is_digit c = true) v ->
  Forall (fun c => is_digit c = true) (padStart v (Z.of_nat m) "0"%char) /\
  List.length (padStart v (Z.of_nat m) "0"%char) = m.
Proof.
  intros Hlen Hv. unfold padStart. rewrite Nat2Z.id.
  destruct (Z.geb_spec (Z.of_nat (List.length v)) (Z.of_nat m)) as [Hge | Hlt].
  - split; [exact Hv | lia].
  - split.
    + apply Forall_skipn, Forall_app. split; [| exact Hv].
      apply Forall_forall. intros x Hx. apply repeat_spec in Hx. subst x. reflexivity.
    + rewrite length_skipn, length_app, repeat_length. lia.
Qed.

(** The token of any digest, for any positive number of digits. *)
Lemma hotpDigestToToken_shape (digest : list Z) (d : nat) :
  (1 <= d)%nat ->
  Forall (fun c => is_digit c = true) (hotpDigestToToken digest (Z.of_nat d)) /\
  List.length (hotpDigestToToken digest (Z.of_nat d)) = d.
Proof.
  intros Hd. unfold hotpDigestToToken.
  generalize (Z.land (byte_at digest (Z.of_nat (List.length digest) - 1)) 15).
  intros offset.
  assert (Hland : forall x m, 0 <= m -> 0 <= Z.land x m)
    by (intros x m Hm; apply Z.land_nonneg; right; exact Hm).
  assert (Hsh : forall x k, 0 <= x -> 0 <= Z.shiftl x k)
    by (intros x k Hx; apply Z.shiftl_nonneg; exact Hx).
  assert (Hor : forall x y, 0 <= x -> 0 <= y -> 0 <= Z.lor x y)
    by (intros x y Hx Hy; apply Z.lor_nonneg; split; assumption).
  match goal with |- context [number_to_string (?b mod ?m)] =>
    assert (Hb : 0 <= b); [| generalize dependent b] end.
  { apply Hor; apply Hor; try apply Hsh; apply Hland; lia. }
  intros binary Hb.
  assert (Hm : 0 < 10 ^ Z.of_nat d) by (apply Z.pow_pos_nonneg; lia).
  pose proof (Z.mod_pos_bound binary _ Hm) as Hr.
  apply padStart_shape.
  - apply number_to_string_length; [exact Hr | exact Hd].
  - apply number_to_string_digits. apply Hr.
Qed.

Lemma validateSecret_ok (secret : jstr) :
  validateSecret secret = true -> exists cleaned, validateAndCleanSecret secret = Ok cleaned.
Proof.
  unfold validateSecret. destruct (validateAndCleanSecret secret) as [cl | e]; intros H.
  - exists cl. reflexivity.
  - discriminate.
Qed.

(** The number of digits configured by [options?.digits || 6]. *)
Lemma totpOptions_digits (options : TOTPOptions) :
  exists d : nat, (6 <= d <= 8)%nat /\ o_digits (totpOptions options) = Z.of_nat d /\
    Z.to_nat (o_digits (totpOptions options)) = d.
Proof.
  unfold totpOptions. cbn [o_digits].
  destruct (digits options) as [[| |] |]; cbn [digits_num];
    [exists 6%nat | exists 7%nat | exists 8%nat | exists 6%nat]; repeat split; lia.
Qed.

(** Claim C9: for every secret accepted by the secret check, every
    options value (algorithm SHA1/SHA256/SHA512, digits 6/7/8, any
    period) and every clock value, and for any digest function that
    returns a digest, [generateTOTP] returns a string of decimal digits
    whose length is exactly the configured number of digits (6 when
    absent); the zero padding turns the value 42 into 000042 for 6
    digits. *)
Theorem generateTOTP_fixed_width
    (createDigest : HashAlgorithm -> list Z -> list Z -> exc (list Z))
    (Htotal : forall a k m, exists d, createDigest a k m = Ok d)
    (now : Z) (secret : jstr) (options : TOTPOptions)
    (Hsecret : validateSecret secret = true) :
  (exists code, generateTOTP createDigest now secret options = Ok code /\
     Forall (fun c => is_digit c = true) code /\
     List.length code = Z.to_nat (o_digits (totpOptions options))) /\
  padStart (number_to_string 42) 6 "0"%char = str "000042".
Proof.
  split; [| reflexivity].
  destruct (validateSecret_ok secret Hsecret) as [cleaned Hcl].
  destruct (totpOptions_digits options) as [d [Hd [Hod Hnat]]].
  unfold generateTOTP. rewrite Hcl. cbn [exc_bind].
  unfold totp_generate, totpToken, hotpToken.
  destruct (Htotal (o_algorithm (totpOptions options))
                   (totpCreateHmacKey (o_algorithm (totpOptions options)) cleaned)
                   (hotpCounter (totpCounter now (o_step (totpOptions options)))))
    as [digest Hdg].
  rewrite Hdg. cbn [exc_bind rethrow_with].
  eexists. split; [reflexivity |].
  rewrite Hnat, Hod. apply hotpDigestToToken_shape. lia.
Qed.

Lemma generateTOTP_fixed_width_witness :
  (forall a k m, exists d, cryptoDigest a k m = Ok d) /\
  validateSecret (str "JBSWY3DPEHPK3PXP") = true /\
  ((exists code, generateTOTP cryptoDigest 59000 (str "JBSWY3DPEHPK3PXP") no_options = Ok code /\
     Forall (fun c => is_digit c = true) code /\
     List.length code = Z.to_nat (o_digits (totpOptions no_options))) /\
   padStart (number_to_string 42) 6 "0"%char = str "000042").
Proof.
  assert (Ht : forall a k m, exists d, cryptoDigest a k m = Ok d)
    by (intros a k m; destruct a; eexists; reflexivity).
  assert (Hs : validateSecret (str "JBSWY3DPEHPK3PXP") = true) by (vm_compute; reflexivity).
  split; [exact Ht | split; [exact Hs |]].
  exact (generateTOTP_fixed_width cryptoDigest Ht 59000 (str "JBSWY3DPEHPK3PXP") no_options Hs).
Defined.

(** [validateTOTP] on an integer window: a boolean, never an exception;
    [false] for a rejected secret and for a digest that throws. *)
Lemma validateTOTP_Z_total
    (createDigest : HashAlgorithm -> list Z -> list Z -> exc (list Z))
    (now : Z) (code secret : jstr) (options : TOTPOptions) :
  (exists b, validateTOTP createDigest now code secret options = Ok b) /\
  (forall e, validateAndCleanSecret secret = Throw e ->
     validateTOTP createDigest now code secret options = Ok false) /\
  ((forall a k m, exists e, createDigest a k m = Throw e) ->
     validateTOTP createDigest now code secret options = Ok false).
Proof.
  unfold validateTOTP. split; [| split].
  - destruct (validateTOTP_try createDigest now code secret options) as [b | e];
      eexists; reflexivity.
  - intros e He. unfold validateTOTP_try. rewrite He. reflexivity.
  - intros Hthrow. unfold validateTOTP_try.
    destruct (validateAndCleanSecret secret) as [cl | e]; [| reflexivity].
    cbn [exc_bind]. unfold totp_check, totpCheckWithWindow, totpCheck.
    destruct (isTokenValid code) eqn:Hv.
    + cbn [negb]. unfold totpToken, hotpToken.
      match goal with |- context [createDigest ?a ?k ?m] =>
        destruct (Hthrow a k m) as [e He]; rewrite He end.
      reflexivity.
    + cbn [negb exc_bind].
      assert (Hep : forall pos epochs,
        totpCheckByEpoch_from createDigest pos epochs code cl (totpOptions options)
        = Ok None).
      { intros pos epochs. revert pos. induction epochs as [| ep rest IH]; intros pos;
          [reflexivity |].
        cbn [totpCheckByEpoch_from]. unfold totpCheck. rewrite Hv. cbn [negb exc_bind].
        apply IH. }
      unfold totpCheckByEpoch. rewrite !Hep. reflexivity.
Qed.

(** On an integer bound [n] the loop of [totpEpochsInWindow] ends after
    its [k] remaining rounds when the fuel exceeds [k]. *)
Lemma epochs_loop_int (epoch direction delta n : Z) :
  forall k fuel (i : nat) acc,
  Z.of_nat (i + k) = n + 1 -> (k < fuel)%nat ->
  epochs_loop fuel epoch direction delta (JSInt n) (Z.of_nat i) acc =
  Some (acc ++ map (fun j => epoch + direction * Z.of_nat j * delta) (seq i k)).
Proof.
  induction k as [| k IH]; intros fuel i acc Hn Hf; destruct fuel as [| f]; try lia;
    cbn [epochs_loop js_le_int].
  - replace (Z.of_nat i <=? n) with false by (symmetry; apply Z.leb_gt; lia).
    cbn [seq map]. rewrite app_nil_r. reflexivity.
  - replace (Z.of_nat i <=? n) with true by (symmetry; apply Z.leb_le; lia).
    replace (Z.of_nat i + 1) with (Z.of_nat (S i)) by lia.
    rewrite (IH f (S i)) by lia. cbn [seq map]. rewrite <- app_assoc. reflexivity.
Qed.

Lemma totpEpochsInWindow_js_int (fuel : nat) (epoch direction delta w : Z)
    (Hf : (Z.to_nat (Z.abs w) < fuel)%nat) :
  totpEpochsInWindow_js fuel epoch direction delta (JSInt (Z.abs w)) =
  Some (totpEpochsInWindow epoch direction delta (Z.abs w)).
Proof.
  unfold totpEpochsInWindow_js, totpEpochsInWindow. cbn [js_is_zero].
  destruct (Z.abs w =? 0) eqn:E.
  - apply Z.eqb_eq in E. rewrite E. reflexivity.
  - pose proof (epochs_loop_int epoch direction delta (Z.abs w) (Z.to_nat (Z.abs w)) fuel 1 [])
      as Hl.
    cbn [Z.of_nat Pos.of_succ_nat app] in Hl. rewrite Hl by lia. reflexivity.
Qed.

(** With a window that is an integer, absent or [NaN], and enough fuel,
    the run ends with the result of [validateTOTP] on the integer window. *)
Lemma validateTOTP_js_agrees
    (cd : HashAlgorithm -> list Z -> list Z -> exc (list Z))
    (fuel : nat) (now : Z) (code secret : jstr) (options : TOTPOptionsJS) (w : Z)
    (Hw : window_or_1 (js_window options) = JSInt w)
    (Hf : (Z.to_nat (Z.abs w) < fuel)%nat) :
  validateTOTP_js cd fuel now code secret options =
  Some (validateTOTP cd now code secret (to_options options)).
Proof.
  assert (Ho : o_window (totpOptions (to_options options)) = w).
  { revert Hw. unfold window_or_1, totpOptions, to_options, or_default. cbn [o_window window].
    destruct (js_window options) as [[z | | |] |]; intros H; try discriminate;
      try (injection H as H; exact H).
    destruct (z =? 0); injection H as H; exact H. }
  unfold validateTOTP_js, validateTOTP, validateTOTP_try.
  destruct (validateAndCleanSecret secret) as [cl | m]; cbn [exc_bind]; [| reflexivity].
  rewrite Hw. set (o := totpOptions (to_options options)) in *.
  unfold totpCheckWithWindow_js, totp_check, totpCheckWithWindow, getWindowBounds.
  rewrite Ho. cbv zeta. cbn [fst snd js_abs].
  destruct (totpCheck cd code cl o now) as [[|] | m]; cbn [exc_bind]; try reflexivity.
  rewrite !totpEpochsInWindow_js_int by exact Hf.
  destruct (totpCheckByEpoch cd _ code cl o) as [[p |] | m]; cbn [exc_bind];
    try reflexivity.
  destruct (totpCheckByEpoch cd _ code cl o) as [[p |] | m]; reflexivity.
Qed.

(** On the bound [Infinity] the loop of [totpEpochsInWindow] never ends. *)
Lemma epochs_loop_infinite :
  forall fuel epoch direction delta i acc,
  epochs_loop fuel epoch direction delta JSInfinity i acc = None.
Proof.
  induction fuel as [| f IH]; intros epoch direction delta i acc;
    cbn [epochs_loop js_le_int]; [reflexivity | apply IH].
Qed.

(** With the window [Infinity] or [-Infinity], a code that does not
    match the current step sends [totpCheckWithWindow] into that loop. *)
Lemma totpCheckWithWindow_js_infinite
    (cd : HashAlgorithm -> list Z -> list Z -> exc (list Z))
    (fuel : nat) (token secret : jstr) (o : OtpOptions) (w : JSNumber) (epoch : Z)
    (Hw : w = JSInfinity \/ w = JSNegInfinity)
    (H : totpCheck cd token secret o epoch = Ok false) :
  totpCheckWithWindow_js cd fuel token secret o w epoch = None.
Proof.
  unfold totpCheckWithWindow_js. rewrite H. cbv zeta.
  replace (js_abs w) with JSInfinity by (destruct Hw as [-> | ->]; reflexivity).
  unfold totpEpochsInWindow_js. cbn [js_is_zero].
  rewrite epochs_loop_infinite. reflexivity.
Qed.




(** ** Concrete runs *)

(** Claim C1: with the RFC 6238 SHA1 seed (the ASCII string
    12345678901234567890, given Base32-encoded), period 30 and 8 digits,
    [generateTOTP] at Unix time 59 returns 58372946, not the published
    94287082: the service hands the Base32 text to otplib's [totp], whose
    HMAC key is the ASCII bytes of that text.  The same engine keyed with
    the decoded seed gives the published code. *)
Theorem generateTOTP_rfc6238_t59_sha1 :
  generateTOTP cryptoDigest 59000 rfc_seed_base32
    {| algorithm := Some SHA1; digits := Some D8; period := Some 30; window := None |}
  = Ok (str "58372946") /\
  hotpToken cryptoDigest (str "12345678901234567890") (totpCounter 59000 30)
    {| o_digits := 8; o_step := 30; o_algorithm := sha1; o_window := 1 |}
  = Ok (str "94287082").
Proof. split; vm_compute; reflexivity. Qed.

(** Claim C3 (counterexample): the code generated at T = 4888890 s with
    the default options is 474746; checked with period 30 and window 1 at
    T + 61 s it is accepted, since the code of the step before the check
    time coincides with it. *)
Lemma validateTOTP_accepts_at_T_plus_61 :
  generateTOTP cryptoDigest (4888890 * 1000) rfc_seed_base32 no_options
  = Ok (str "474746") /\
  validateTOTP cryptoDigest ((4888890 + 61) * 1000) (str "474746") rfc_seed_base32
    {| algorithm := None; digits := None; period := Some 30; window := Some 1 |}
  = Ok true.
Proof. split; vm_compute; reflexivity. Qed.

(** Claim C5: the URI otpauth://totp/X?secret=JBSWY3DPEHPK3PXP&period=abc
    is accepted and the descriptor's period is [NaN], not 30: [parseInt]
    gives [NaN], and both comparisons [NaN < 1] and [NaN > 300] are false,
    while the digits check does replace a [NaN] by 6. *)
Theorem parseOTPAuthURL_period_NaN_kept :
  (exists r, parseOTPAuthURL (str "otpauth://totp/X?secret=JBSWY3DPEHPK3PXP&period=abc")
             = Ok r /\ qr_period r = JNaN) /\
  (exists r, parseOTPAuthURL (str "otpauth://totp/X?secret=JBSWY3DPEHPK3PXP&digits=abc")
             = Ok r /\ qr_digits r = JNum 6).
Proof. split; eexists; split; vm_compute; reflexivity. Qed.

(** Claim C6 (counterexample): for the label [Example:] with the issuer
    query parameter [Example], the account name computed by lines
    154-168 is [Example] (the [|| parts[0]] fallback), not the empty
    string after the first colon. *)
Lemma parse_label_empty_account_fallback :
  parse_label (str "Example:") (Some (str "Example")) = (str "Example", str "Example").
Proof. vm_compute. reflexivity. Qed.

(** Claim C8: with window 0 the only offset is 0, whose code at 59 s is
    372946; yet [validateTOTP] accepts 368021, the code of the next step,
    because [options?.window || 1] turns the window 0 into 1. *)
Theorem validateTOTP_window0_widened :
  generateTOTP cryptoDigest 59000 rfc_seed_base32 no_options = Ok (str "372946") /\
  generateTOTP cryptoDigest 89000 rfc_seed_base32 no_options = Ok (str "368021") /\
  validateTOTP cryptoDigest 59000 (str "368021") rfc_seed_base32
    {| algorithm := None; digits := None; period := None; window := Some 0 |}
  = Ok true.
Proof. repeat split; vm_compute; reflexivity. Qed.

(** ** Acceptance window of [validateTOTP] *)

Lemma jstr_eqb_eq (a b : jstr) : jstr_eqb a b = true <-> a = b.
Proof.
  revert b. induction a as [| x a IH]; intros [| y b]; cbn [jstr_eqb];
    try (split; congruence).
  rewrite andb_true_iff, ceq_true, IH. split; [intros [-> ->]; reflexivity |].
  intros H. injection H as -> ->. split; reflexivity.
Qed.

Lemma totpCheck_token
    (cd : HashAlgorithm -> list Z -> list Z -> exc (list Z))
    (token secret tok : jstr) (o : OtpOptions) (e : Z) :
  totpToken cd secret o e = Ok tok ->
  totpCheck cd token secret o e = Ok (isTokenValid token && jstr_eqb token tok).
Proof.
  intros H. unfold totpCheck. destruct (isTokenValid token); cbn [negb andb];
    [rewrite H |]; reflexivity.
Qed.

(** With window 1, [totp.check] compares the token with the codes of the
    check time and of one step before and after it. *)
Lemma totp_check_window1
    (cd : HashAlgorithm -> list Z -> list Z -> exc (list Z))
    (now : Z) (o : OtpOptions) (token secret t0 tm tp : jstr) :
  o_window o = 1 ->
  totpToken cd secret o now = Ok t0 ->
  totpToken cd secret o (now - o_step o * 1000) = Ok tm ->
  totpToken cd secret o (now + o_step o * 1000) = Ok tp ->
  totp_check cd now o token secret =
  Ok (isTokenValid token &&
      (jstr_eqb token t0 || jstr_eqb token tm || jstr_eqb token tp)).
Proof.
  intros Hw H0 Hm Hp.
  unfold totp_check, totpCheckWithWindow, totpCheckByEpoch, totpEpochsInWindow,
    getWindowBounds.
  cbn [fst snd]. rewrite Hw. change (Z.to_nat (Z.abs 1)) with 1%nat. cbn [seq map totpCheckByEpoch_from].
  replace (now + -1 * Z.of_nat 1 * (o_step o * 1000)) with (now - o_step o * 1000) by lia.
  replace (now + 1 * Z.of_nat 1 * (o_step o * 1000)) with (now + o_step o * 1000) by lia.
  rewrite (totpCheck_token _ _ _ _ _ _ H0), (totpCheck_token _ _ _ _ _ _ Hm),
    (totpCheck_token _ _ _ _ _ _ Hp).
  destruct (isTokenValid token), (jstr_eqb token t0), (jstr_eqb token tm),
    (jstr_eqb token tp); reflexivity.
Qed.

Lemma totpToken_counter
    (cd : HashAlgorithm -> list Z -> list Z -> exc (list Z))
    (secret : jstr) (o : OtpOptions) (e e' : Z) :
  e / (o_step o * 1000) = e' / (o_step o * 1000) ->
  totpToken cd secret o e = totpToken cd secret o e'.
Proof. intros H. unfold totpToken, totpCounter. rewrite H. reflexivity. Qed.

Lemma totpToken_valid
    (cd : HashAlgorithm -> list Z -> list Z -> exc (list Z))
    (secret tok : jstr) (options : TOTPOptions) (e : Z) :
  totpToken cd secret (totpOptions options) e = Ok tok -> isTokenValid tok = true.
Proof.
  destruct (totpOptions_digits options) as [d [Hd [Hod _]]].
  unfold totpToken, hotpToken. rewrite Hod.
  destruct (cd _ _ _) as [digest | m]; cbv beta iota delta [exc_bind]; intros H;
    [| discriminate].
  injection H as H. subst tok.
  destruct (hotpDigestToToken_shape digest d ltac:(lia)) as [Hall Hlen].
  unfold isTokenValid. destruct (hotpDigestToToken digest (Z.of_nat d)) as [| c r].
  - cbn in Hlen. lia.
  - apply forallb_forall. intros x Hx. rewrite Forall_forall in Hall. apply Hall, Hx.
Qed.

Lemma generateTOTP_ok
    (cd : HashAlgorithm -> list Z -> list Z -> exc (list Z))
    (now : Z) (secret code : jstr) (options : TOTPOptions) :
  generateTOTP cd now secret options = Ok code <->
  exists cleaned, validateAndCleanSecret secret = Ok cleaned /\
    totpToken cd cleaned (totpOptions options) now = Ok code.
Proof.
  unfold generateTOTP, totp_generate.
  destruct (validateAndCleanSecret secret) as [cl | m]; cbn [exc_bind].
  - destruct (totpToken cd cl (totpOptions options) now) as [v | m] eqn:Et;
      cbn [rethrow_with].
    + split; [intros H; exists cl; split; [reflexivity | rewrite Et; exact H] |].
      intros [cl' [Hc Ht]]. injection Hc as Hc. subst cl'. rewrite Et in Ht. exact Ht.
    + split; [discriminate |]. intros [cl' [Hc Ht]]. injection Hc as Hc. subst cl'.
      rewrite Et in Ht. discriminate.
  - split; [discriminate |]. intros [cl' [Hc _]]. discriminate.
Qed.

Lemma period30_window1_options (alg : option Algorithm) (dig : option Digits) :
  o_step (totpOptions (period30_window1 alg dig)) = 30 /\
  o_window (totpOptions (period30_window1 alg dig)) = 1.
Proof. split; reflexivity. Qed.

Lemma validateTOTP_window1
    (cd : HashAlgorithm -> list Z -> list Z -> exc (list Z))
    (Htotal : forall a k m, exists d, cd a k m = Ok d)
    (alg : option Algorithm) (dig : option Digits) (now : Z) (code secret cl : jstr) :
  validateAndCleanSecret secret = Ok cl ->
  exists t0 tm tp,
    totpToken cd cl (totpOptions (period30_window1 alg dig)) now = Ok t0 /\
    totpToken cd cl (totpOptions (period30_window1 alg dig)) (now - 30000) = Ok tm /\
    totpToken cd cl (totpOptions (period30_window1 alg dig)) (now + 30000) = Ok tp /\
    validateTOTP cd now code secret (period30_window1 alg dig) =
    Ok (isTokenValid code && (jstr_eqb code t0 || jstr_eqb code tm || jstr_eqb code tp)).
Proof.
  intros Hcl. set (o := totpOptions (period30_window1 alg dig)).
  assert (Htok : forall e, exists t, totpToken cd cl o e = Ok t).
  { intros e. unfold totpToken, hotpToken.
    match goal with |- context [cd ?a ?k ?m] => destruct (Htotal a k m) as [dg Hd] end.
    rewrite Hd. eexists. reflexivity. }
  destruct (Htok now) as [t0 H0], (Htok (now - 30000)) as [tm Hm],
    (Htok (now + 30000)) as [tp Hp].
  exists t0, tm, tp. split; [exact H0 | split; [exact Hm | split; [exact Hp |]]].
  destruct (period30_window1_options alg dig) as [Hs Hw].
  unfold validateTOTP, validateTOTP_try. rewrite Hcl. cbn [exc_bind].
  fold o. rewrite (totp_check_window1 cd now o code cl t0 tm tp); [reflexivity | exact Hw | exact H0 | |].
  - change (o_step o * 1000) with 30000. exact Hm.
  - change (o_step o * 1000) with 30000. exact Hp.
Qed.

Lemma counter_within_one_step (t s : Z) :
  t - 30000 <= s <= t + 30000 ->
  t / 30000 = s / 30000 \/ t / 30000 = (s - 30000) / 30000 \/
  t / 30000 = (s + 30000) / 30000.
Proof.
  intros H.
  pose proof (Z.div_mod t 30000 ltac:(lia)). pose proof (Z.mod_pos_bound t 30000 ltac:(lia)).
  pose proof (Z.div_mod s 30000 ltac:(lia)). pose proof (Z.mod_pos_bound s 30000 ltac:(lia)).
  pose proof (Z.div_mod (s - 30000) 30000 ltac:(lia)).
  pose proof (Z.mod_pos_bound (s - 30000) 30000 ltac:(lia)).
  pose proof (Z.div_mod (s + 30000) 30000 ltac:(lia)).
  pose proof (Z.mod_pos_bound (s + 30000) 30000 ltac:(lia)).
  lia.
Qed.

(** Claim C3: for period 30 and window 1 (any algorithm and digits) and
    any digest function that returns a digest, a code that [generateTOTP]
    returns at time [t] (in milliseconds) is accepted by [validateTOTP]
    at every check time [s] with [|s - t| <= 30 s], period boundaries
    included.  At any check time [s], in particular at [t - 61 s] and
    [t + 61 s] where the step of [t] is out of reach, a code is accepted
    exactly when it is the code generated at [s - 30 s], [s] or
    [s + 30 s]. *)
Theorem validateTOTP_window1_acceptance
    (cd : HashAlgorithm -> list Z -> list Z -> exc (list Z))
    (Htotal : forall a k m, exists d, cd a k m = Ok d)
    (alg : option Algorithm) (dig : option Digits) (secret : jstr) :
  (forall t s code,
     generateTOTP cd t secret (period30_window1 alg dig) = Ok code ->
     t - 30000 <= s <= t + 30000 ->
     validateTOTP cd s code secret (period30_window1 alg dig) = Ok true) /\
  (forall s code,
     validateTOTP cd s code secret (period30_window1 alg dig) = Ok true <->
     exists e, (e = s - 30000 \/ e = s \/ e = s + 30000) /\
       generateTOTP cd e secret (period30_window1 alg dig) = Ok code).
Proof.
  split.
  - intros t s code Hgen Hts.
    apply generateTOTP_ok in Hgen. destruct Hgen as [cl [Hcl Ht]].
    destruct (validateTOTP_window1 cd Htotal alg dig s code secret cl Hcl)
      as [t0 [tm [tp [H0 [Hm [Hp ->]]]]]].
    rewrite (totpToken_valid _ _ _ _ _ Ht). cbn [andb].
    set (O := totpOptions (period30_window1 alg dig)) in *.
    destruct (counter_within_one_step t s Hts) as [E | [E | E]].
    + pose proof (totpToken_counter cd cl O t s E) as E'.
      rewrite Ht, H0 in E'. injection E' as <-.
      rewrite (proj2 (jstr_eqb_eq code code) eq_refl). reflexivity.
    + pose proof (totpToken_counter cd cl O t (s - 30000) E) as E'.
      rewrite Ht, Hm in E'. injection E' as <-.
      rewrite (proj2 (jstr_eqb_eq code code) eq_refl), orb_true_r. reflexivity.
    + pose proof (totpToken_counter cd cl O t (s + 30000) E) as E'.
      rewrite Ht, Hp in E'. injection E' as <-.
      rewrite (proj2 (jstr_eqb_eq code code) eq_refl), !orb_true_r. reflexivity.
  - intros s code.
    destruct (validateAndCleanSecret secret) as [cl | m] eqn:Hcl.
    + destruct (validateTOTP_window1 cd Htotal alg dig s code secret cl Hcl)
        as [t0 [tm [tp [H0 [Hm [Hp ->]]]]]].
      split.
      * intros H. injection H as H.
        apply andb_true_iff in H. destruct H as [_ H].
        apply orb_true_iff in H. destruct H as [H | H]; [apply orb_true_iff in H; destruct H as [H | H] |];
          apply jstr_eqb_eq in H; subst code.
        -- exists s. split; [right; left; reflexivity |].
           apply generateTOTP_ok. exists cl. split; assumption.
        -- exists (s - 30000). split; [left; reflexivity |].
           apply generateTOTP_ok. exists cl. split; assumption.
        -- exists (s + 30000). split; [right; right; reflexivity |].
           apply generateTOTP_ok. exists cl. split; assumption.
      * intros [e [He Hgen]]. apply generateTOTP_ok in Hgen.
        destruct Hgen as [cl' [Hcl' Ht]]. rewrite Hcl in Hcl'. injection Hcl' as <-.
        rewrite (totpToken_valid _ _ _ _ _ Ht). cbn [andb].
        destruct He as [-> | [-> | ->]].
        -- rewrite Hm in Ht. injection Ht as <-.
           rewrite (proj2 (jstr_eqb_eq tm tm) eq_refl), orb_true_r. reflexivity.
        -- rewrite H0 in Ht. injection Ht as <-.
           rewrite (proj2 (jstr_eqb_eq t0 t0) eq_refl). reflexivity.
        -- rewrite Hp in Ht. injection Ht as <-.
           rewrite (proj2 (jstr_eqb_eq tp tp) eq_refl), !orb_true_r. reflexivity.
    + assert (Hv : validateTOTP cd s code secret (period30_window1 alg dig) = Ok false)
        by (unfold validateTOTP, validateTOTP_try; rewrite Hcl; reflexivity).
      rewrite Hv. split; [discriminate |].
      intros [e [_ Hgen]]. apply generateTOTP_ok in Hgen.
      destruct Hgen as [cl [Hc _]]. rewrite Hcl in Hc. discriminate.
Qed.

Lemma validateTOTP_window1_acceptance_witness :
  validateTOTP cryptoDigest ((4888890 + 30) * 1000) (str "474746") rfc_seed_base32
    (period30_window1 None None) = Ok true.
Proof.
  assert (Ht : forall a k m, exists d, cryptoDigest a k m = Ok d)
    by (intros a k m; destruct a; eexists; reflexivity).
  apply (proj1 (validateTOTP_window1_acceptance cryptoDigest Ht None None rfc_seed_base32)
           (4888890 * 1000) ((4888890 + 30) * 1000) (str "474746")).
  - vm_compute. reflexivity.
  - lia.
Defined.

(** ** Rejections of [parseOTPAuthURL] *)

Lemma uri_units_throw (s : jstr) (e : string) :
  uri_units s = Throw e -> e = "URI malformed"%string.
Proof.
  remember (List.length s) as n eqn:Hn. assert (Hle : (List.length s <= n)%nat) by lia.
  clear Hn. revert s e Hle. induction n as [| n IH]; intros [| c t] e Hle;
    cbn [uri_units]; try discriminate; [cbn in Hle; lia |].
  cbn in Hle. destruct (ceq c "%"%char).
  - destruct t as [| h1 [| h2 r]]; try (intros H; injection H as <-; reflexivity).
    destruct (hex_value h1), (hex_value h2); try (intros H; injection H as <-; reflexivity).
    destruct (uri_units r) as [v | m] eqn:Er; cbn [exc_bind]; [discriminate |].
    intros H. injection H as <-. apply (IH r); [cbn in Hle; lia | exact Er].
  - destruct (uri_units t) as [v | m] eqn:Er; cbn [exc_bind]; [discriminate |].
    intros H. injection H as <-. apply (IH t); [lia | exact Er].
Qed.

Lemma decodeURIComponent_throw (s : jstr) (e : string) :
  decodeURIComponent s = Throw e -> e = "URI malformed"%string.
Proof.
  unfold decodeURIComponent. destruct (uri_units s) as [us | m] eqn:Eu; cbn [exc_bind].
  - destruct (utf8_ok 0 us); [discriminate |]. intros H. injection H as <-. reflexivity.
  - intros H. injection H as <-. exact (uri_units_throw s m Eu).
Qed.

Lemma normalize_keeps (r : QRCodeResult) :
  kept_fields (normalize_period (normalize_algorithm (normalize_digits r))) = kept_fields r.
Proof.
  assert (Hd : forall r, kept_fields (normalize_digits r) = kept_fields r)
    by (intros r0; unfold normalize_digits; destruct (negb _); reflexivity).
  assert (Ha : forall r, kept_fields (normalize_algorithm r) = kept_fields r)
    by (intros r0; unfold normalize_algorithm; destruct (negb _); reflexivity).
  assert (Hp : forall r, kept_fields (normalize_period r) = kept_fields r)
    by (intros r0; unfold normalize_period; destruct (_ || _); reflexivity).
  rewrite Hp, Ha, Hd. reflexivity.
Qed.

Lemma jstr_eqb_refl (a : jstr) : jstr_eqb a a = true.
Proof. apply jstr_eqb_eq. reflexivity. Qed.

Lemma jstr_eqb_false (a b : jstr) : a <> b -> jstr_eqb a b = false.
Proof.
  intros H. destruct (jstr_eqb a b) eqn:E; [| reflexivity].
  apply jstr_eqb_eq in E. contradiction.
Qed.

(** Claim C7: let [u] be the parsed URL (the URL parser lowercases the
    scheme, and the code lowercases the host).  [parseOTPAuthURL] fails
    with an "Invalid OTPAuth URL" error when the protocol is not
    [otpauth:], when the host is neither [totp] nor [hotp], when the
    [secret] parameter is missing or empty, and when it fails the secret
    check.  With protocol [otpauth:], host [totp] or [hotp] and a secret
    that passes the check, it returns a descriptor carrying that secret,
    or fails only because the label is not a well-formed
    percent-encoding (URI malformed). *)
Theorem parseOTPAuthURL_rejections (url : jstr) (u : URL) (Hu : parse_url url = Ok u) :
  (protocol u <> str "otpauth:" ->
     parseOTPAuthURL url = Throw "Invalid OTPAuth URL: Invalid OTPAuth URL protocol") /\
  (protocol u = str "otpauth:" ->
     toLowerCase (hostname u) <> str "totp" -> toLowerCase (hostname u) <> str "hotp" ->
     parseOTPAuthURL url = Throw ("Invalid OTPAuth URL: "
       ++ "Unsupported OTP type. Only TOTP and HOTP are supported")) /\
  (protocol u = str "otpauth:" ->
     (toLowerCase (hostname u) = str "totp" \/ toLowerCase (hostname u) = str "hotp") ->
     (params_get (form_parse (query u)) (str "secret") = None \/
      params_get (form_parse (query u)) (str "secret") = Some []) ->
     parseOTPAuthURL url = Throw "Invalid OTPAuth URL: Secret parameter is required") /\
  (forall secret,
     protocol u = str "otpauth:" ->
     (toLowerCase (hostname u) = str "totp" \/ toLowerCase (hostname u) = str "hotp") ->
     params_get (form_parse (query u)) (str "secret") = Some secret ->
     secret <> [] -> validateSecret secret = false ->
     parseOTPAuthURL url = Throw "Invalid OTPAuth URL: Invalid secret format") /\
  (forall secret,
     protocol u = str "otpauth:" ->
     (toLowerCase (hostname u) = str "totp" \/ toLowerCase (hostname u) = str "hotp") ->
     params_get (form_parse (query u)) (str "secret") = Some secret ->
     validateSecret secret = true ->
     (exists r, parseOTPAuthURL url = Ok r /\ qr_secret r = secret /\
                qr_type r = toLowerCase (hostname u)) \/
     parseOTPAuthURL url = Throw "Invalid OTPAuth URL: URI malformed").
Proof.
  unfold parseOTPAuthURL. rewrite Hu. cbn [exc_bind].
  assert (Hhost : (toLowerCase (hostname u) = str "totp" \/
                   toLowerCase (hostname u) = str "hotp") ->
          jstr_eqb (toLowerCase (hostname u)) (str "totp")
          || jstr_eqb (toLowerCase (hostname u)) (str "hotp") = true).
  { intros [H | H]; rewrite H; reflexivity. }
  split; [| split; [| split; [| split]]].
  - intros Hp. rewrite (jstr_eqb_false _ _ Hp). reflexivity.
  - intros Hp Ht Hh. rewrite Hp, jstr_eqb_refl. cbn [negb].
    rewrite (jstr_eqb_false _ _ Ht), (jstr_eqb_false _ _ Hh). reflexivity.
  - intros Hp Ht Hs. rewrite Hp, jstr_eqb_refl. cbn [negb].
    rewrite (Hhost Ht). cbn [negb].
    destruct Hs as [Hs | Hs]; rewrite Hs; reflexivity.
  - intros secret Hp Ht Hs Hne Hv. rewrite Hp, jstr_eqb_refl. cbn [negb].
    rewrite (Hhost Ht). cbn [negb]. rewrite Hs.
    destruct secret as [| c r]; [contradiction |]. rewrite Hv. reflexivity.
  - intros secret Hp Ht Hs Hv. rewrite Hp, jstr_eqb_refl. cbn [negb].
    rewrite (Hhost Ht). cbn [negb]. rewrite Hs.
    destruct secret as [| c r]; [discriminate |]. rewrite Hv. cbn [negb].
    destruct (decodeURIComponent (substring1 (pathname u))) as [lbl | e] eqn:Ed;
      cbn [exc_bind rethrow_with].
    + left. destruct (parse_label lbl _) as [issuer acc]. cbn [rethrow_with].
      match goal with |- exists r, Ok (normalize_period (normalize_algorithm
                                  (normalize_digits ?R))) = Ok r /\ _ =>
        pose proof (normalize_keeps R) as Hk; exists (normalize_period
          (normalize_algorithm (normalize_digits R))) end.
      split; [reflexivity |].
      split; [exact (f_equal (fun k => snd (fst k)) Hk)
             | exact (f_equal (fun k => fst (fst (fst k))) Hk)].
    + right. rewrite (decodeURIComponent_throw _ _ Ed). reflexivity.
Qed.

Lemma parseOTPAuthURL_rejections_witness :
  exists u, parse_url (str "otpauth://TOTP/Example:alice?secret=jbswy3dpehpk3pxp") = Ok u /\
    ((exists r, parseOTPAuthURL (str "otpauth://TOTP/Example:alice?secret=jbswy3dpehpk3pxp")
                = Ok r /\ qr_secret r = str "jbswy3dpehpk3pxp" /\
                qr_type r = toLowerCase (hostname u)) \/
     parseOTPAuthURL (str "otpauth://TOTP/Example:alice?secret=jbswy3dpehpk3pxp")
     = Throw "Invalid OTPAuth URL: URI malformed").
Proof.
  let r := eval vm_compute in
    (parse_url (str "otpauth://TOTP/Example:alice?secret=jbswy3dpehpk3pxp")) in
  lazymatch r with Ok ?u0 =>
    (exists u0;
     assert (Hu : parse_url (str "otpauth://TOTP/Example:alice?secret=jbswy3dpehpk3pxp")
                  = Ok u0) by (vm_compute; reflexivity)) end.
  split; [exact Hu |].
  refine (proj2 (proj2 (proj2 (proj2 (parseOTPAuthURL_rejections _ _ Hu))))
            (str "jbswy3dpehpk3pxp") _ _ _ _);
    [vm_compute; reflexivity | left; vm_compute; reflexivity
    | vm_compute; reflexivity | vm_compute; reflexivity].
Defined.

(** ** Labels of provisioning URIs *)

Lemma ceq_false (c d : ascii) : c <> d -> ceq c d = false.
Proof.
  intros H. destruct (ceq c d) eqn:E; [| reflexivity]. apply ceq_true in E. contradiction.
Qed.

Lemma ceq_refl (c : ascii) : ceq c c = true.
Proof. apply ceq_true. reflexivity. Qed.

Lemma js_split_nosep (sep : ascii) (a : jstr) : ~ In sep a -> js_split sep a = [a].
Proof.
  induction a as [| c r IH]; intros H; [reflexivity |]. cbn [js_split].
  rewrite ceq_false by (intros ->; apply H; left; reflexivity).
  rewrite IH by (intros Hin; apply H; right; exact Hin). reflexivity.
Qed.

Lemma js_split_sep (sep : ascii) (a b : jstr) :
  ~ In sep a -> js_split sep (a ++ sep :: b) = a :: js_split sep b.
Proof.
  induction a as [| c r IH]; intros H; cbn [js_split app].
  - rewrite ceq_refl. reflexivity.
  - rewrite ceq_false by (intros ->; apply H; left; reflexivity).
    rewrite IH by (intros Hin; apply H; right; exact Hin). reflexivity.
Qed.

Lemma includes_char_In (c : ascii) (s : jstr) : includes_char c s = true <-> In c s.
Proof.
  unfold includes_char. rewrite existsb_exists. split.
  - intros [x [Hx Hc]]. apply ceq_true in Hc. subst x. exact Hx.
  - intros Hin. exists c. split; [exact Hin | apply ceq_refl].
Qed.

(** Claim C6: for a label with exactly one colon, [before:after], the
    issuer and account name computed by lines 154-168 are [before] and
    [after] when the issuer query parameter is absent or empty; when it
    is a nonempty [i], they are [i] and [after], or [before] when [after]
    is empty. *)
Theorem parse_label_one_colon (before after : jstr) (issuerParam : option jstr)
    (Hb : ~ In ":"%char before) (Ha : ~ In ":"%char after) :
  ((issuerParam = None \/ issuerParam = Some []) ->
     parse_label (before ++ ":"%char :: after) issuerParam = (before, after)) /\
  (forall i, issuerParam = Some i -> i <> [] ->
     parse_label (before ++ ":"%char :: after) issuerParam =
     (i, if is_empty after then before else after)).
Proof.
  assert (Hinc : includes_char ":"%char (before ++ ":"%char :: after) = true)
    by (apply includes_char_In, in_or_app; right; left; reflexivity).
  assert (Hsplit : js_split_limit ":"%char 2 (before ++ ":"%char :: after) = [before; after]).
  { unfold js_split_limit. rewrite js_split_sep, js_split_nosep by assumption. reflexivity. }
  unfold parse_label. rewrite Hinc, Hsplit. cbn [andb negb nth].
  split.
  - intros [-> | ->]; reflexivity.
  - intros i -> Hi. destruct i as [| c r]; [contradiction |]. cbn.
    destruct after; reflexivity.
Qed.

Lemma parse_label_one_colon_witness :
  parse_label (str "Example:alice") (Some (str "Example")) = (str "Example", str "alice").
Proof.
  apply (proj2 (parse_label_one_colon (str "Example") (str "alice") (Some (str "Example"))
    ltac:(cbn; intuition discriminate) ltac:(cbn; intuition discriminate))).
  - reflexivity.
  - discriminate.
Defined.

(** With two colons, [split(':', 2)] drops the text after the second one. *)
Lemma parse_label_two_colons :
  parse_label (str "a:b:c") None = (str "a", str "b").
Proof. reflexivity. Qed.

(** ** Encoders and decoders *)

Lemma all_chars_spec (P : ascii -> bool) :
  forallb P all_chars = true -> forall c, P c = true.
Proof.
  intros H c. rewrite forallb_forall in H. apply H. unfold all_chars.
  rewrite <- (ascii_nat_embedding c). apply in_map, in_seq.
  pose proof (nat_ascii_bounded c). lia.
Qed.

Lemma all_chars_impl (P Q : ascii -> bool) :
  forallb (fun c => implb (P c) (Q c)) all_chars = true ->
  forall c, P c = true -> Q c = true.
Proof.
  intros H c Hp. pose proof (all_chars_spec _ H c) as Hc. cbv beta in Hc.
  rewrite Hp in Hc. exact Hc.
Qed.

(** A property of all characters of an alphabet, checked on the 256
    characters. *)
Ltac alphabet_fact P Q :=
  intros c; apply (all_chars_impl P Q); vm_compute; reflexivity.

Lemma enc_char_facts (c : ascii) :
  enc_char c = true ->
  negb (ceq c "#"%char) && negb (ceq c "?"%char) && negb (ceq c "/"%char)
  && negb (path_set c) && negb (is_c0_or_space c)
  && negb (in_range 9 10 c || (code c =? 13)%nat) && negb (ceq c ":"%char) = true.
Proof.
  revert c. alphabet_fact enc_char (fun c => negb (ceq c "#"%char) && negb (ceq c "?"%char)
    && negb (ceq c "/"%char) && negb (path_set c) && negb (is_c0_or_space c)
    && negb (in_range 9 10 c || (code c =? 13)%nat) && negb (ceq c ":"%char)).
Qed.

Lemma query_char_facts (c : ascii) :
  query_char c = true ->
  negb (ceq c "#"%char) && negb (query_set c) && negb (is_c0_or_space c)
  && negb (in_range 9 10 c || (code c =? 13)%nat) = true.
Proof.
  revert c. alphabet_fact query_char (fun c => negb (ceq c "#"%char) && negb (query_set c)
    && negb (is_c0_or_space c) && negb (in_range 9 10 c || (code c =? 13)%nat)).
Qed.

Lemma form_char_facts (c : ascii) :
  form_char c = true ->
  negb (ceq c "&"%char) && negb (ceq c "="%char) && query_char c = true.
Proof.
  revert c. alphabet_fact form_char
    (fun c => negb (ceq c "&"%char) && negb (ceq c "="%char) && query_char c).
Qed.

Lemma hex_upper_spec (n : nat) :
  (n < 16)%nat -> hex_value (hex_upper n) = Some n /\ is_alnum (hex_upper n) = true /\
  ceq (hex_upper n) "+"%char = false.
Proof.
  intros H. do 16 (destruct n as [| n]; [split; [reflexivity | split; reflexivity] |]). lia.
Qed.

Lemma code_div16 (c : ascii) : (code c / 16 < 16)%nat /\ (code c mod 16 < 16)%nat.
Proof.
  pose proof (nat_ascii_bounded c). unfold code.
  split; [apply Nat.Div0.div_lt_upper_bound; lia | apply Nat.mod_upper_bound; lia].
Qed.

Lemma code_recompose (c : ascii) : (16 * (code c / 16) + code c mod 16)%nat = code c.
Proof. symmetry. apply Nat.div_mod. lia. Qed.

Lemma chr_code (c : ascii) : chr (code c) = c.
Proof. apply ascii_nat_embedding. Qed.

Lemma uri_unreserved_enc_char (c : ascii) : uri_unreserved c = true -> enc_char c = true.
Proof. revert c. alphabet_fact uri_unreserved enc_char. Qed.

Lemma form_safe_form_char (c : ascii) :
  form_safe c = true -> form_char c && negb (ceq c "+"%char) && negb (ceq c "%"%char) = true.
Proof.
  revert c. alphabet_fact form_safe
    (fun c => form_char c && negb (ceq c "+"%char) && negb (ceq c "%"%char)).
Qed.

Lemma uri_unreserved_not_percent (c : ascii) : uri_unreserved c = true -> ceq c "%"%char = false.
Proof.
  intros H. apply negb_true_iff. revert c H.
  alphabet_fact uri_unreserved (fun c => negb (ceq c "%"%char)).
Qed.

Lemma encodeURIComponent_chars (s : jstr) :
  Forall (fun c => enc_char c = true) (encodeURIComponent s).
Proof.
  unfold encodeURIComponent, percent_encode. induction s as [| c r IH]; [constructor |].
  cbn [flat_map]. apply Forall_app. split; [| exact IH].
  destruct (uri_unreserved c) eqn:U; cbn [negb].
  - constructor; [apply uri_unreserved_enc_char, U | constructor].
  - destruct (code_div16 c) as [H1 H2].
    destruct (hex_upper_spec _ H1) as [_ [A1 _]], (hex_upper_spec _ H2) as [_ [A2 _]].
    unfold percent_encode_char. repeat constructor; unfold enc_char;
      [rewrite A1 | rewrite A2]; reflexivity.
Qed.

Lemma form_encode_chars (s : jstr) : Forall (fun c => form_char c = true) (form_encode s).
Proof.
  unfold form_encode. induction s as [| c r IH]; [constructor |].
  cbn [flat_map]. apply Forall_app. split; [| exact IH].
  destruct (form_safe c) eqn:F.
  - constructor; [| constructor]. apply form_safe_form_char in F.
    apply andb_true_iff in F. destruct F as [F _]. apply andb_true_iff in F. apply F.
  - destruct ((code c =? 32)%nat); [repeat constructor |].
    destruct (code_div16 c) as [H1 H2].
    destruct (hex_upper_spec _ H1) as [_ [A1 _]], (hex_upper_spec _ H2) as [_ [A2 _]].
    unfold percent_encode_char. repeat constructor; unfold form_char;
      [rewrite A1 | rewrite A2]; reflexivity.
Qed.

(** The code units [decodeURIComponent] reads in an encoded string. *)
Lemma uri_units_encode (s : jstr) :
  uri_units (encodeURIComponent s) =
  Ok (map (fun c => if uri_unreserved c then Raw c else Esc (code c)) s).
Proof.
  unfold encodeURIComponent, percent_encode in *. induction s as [| c r IH]; [reflexivity |].
  cbn [flat_map map]. destruct (uri_unreserved c) eqn:U; cbn [negb app].
  - cbn [uri_units]. rewrite (uri_unreserved_not_percent c U), IH. reflexivity.
  - destruct (code_div16 c) as [H1 H2].
    destruct (hex_upper_spec _ H1) as [V1 _], (hex_upper_spec _ H2) as [V2 _].
    change (percent_encode_char c)
      with ["%"%char; hex_upper (code c / 16); hex_upper (code c mod 16)].
    cbn [app uri_units]. rewrite ceq_refl, V1, V2, IH.
    cbn [exc_bind]. rewrite code_recompose. reflexivity.
Qed.

Lemma decode_encodeURIComponent (s : jstr) :
  ascii_str s -> decodeURIComponent (encodeURIComponent s) = Ok s.
Proof.
  intros Hs. unfold decodeURIComponent. rewrite uri_units_encode. cbn [exc_bind].
  assert (Hok : utf8_ok 0 (map (fun c => if uri_unreserved c then Raw c else Esc (code c)) s)
                = true).
  { induction Hs as [| c r Hc Hr IH]; [reflexivity |].
    cbn [map]. destruct (uri_unreserved c); cbn [utf8_ok]; [exact IH |].
    apply Nat.ltb_lt in Hc. rewrite Hc. exact IH. }
  rewrite Hok. f_equal. clear Hs Hok. induction s as [| c r IH]; [reflexivity |].
  cbn [map]. rewrite IH. destruct (uri_unreserved c); cbn [unit_char];
    [reflexivity | rewrite chr_code; reflexivity].
Qed.

Lemma form_decode_encode (v : jstr) : percent_decode (plus_to_space (form_encode v)) = v.
Proof.
  unfold form_encode, plus_to_space in *. induction v as [| c r IH]; [reflexivity |].
  cbn [flat_map]. rewrite map_app. destruct (form_safe c) eqn:F.
  - apply form_safe_form_char in F. apply andb_true_iff in F. destruct F as [F Hpct].
    apply andb_true_iff in F. destruct F as [_ Hplus].
    apply negb_true_iff in Hplus, Hpct.
    cbn [map app]. rewrite Hplus. cbn [percent_decode]. rewrite Hpct, IH. reflexivity.
  - destruct ((code c =? 32)%nat) eqn:Sp.
    + apply Nat.eqb_eq in Sp. cbn [map app ceq]. rewrite ceq_refl.
      cbn [percent_decode]. rewrite IH.
      rewrite <- (chr_code c), Sp. reflexivity.
    + destruct (code_div16 c) as [H1 H2].
      destruct (hex_upper_spec _ H1) as [V1 [_ P1]], (hex_upper_spec _ H2) as [V2 [_ P2]].
      change (percent_encode_char c)
        with ["%"%char; hex_upper (code c / 16); hex_upper (code c mod 16)].
      cbn [map app]. rewrite P1, P2.
      replace (if ceq "%"%char "+"%char then " "%char else "%"%char) with "%"%char
        by reflexivity.
      cbn [percent_decode]. rewrite ceq_refl, V1, V2, IH, code_recompose, chr_code.
      reflexivity.
Qed.

(** ** The query string of a provisioning URI *)

Lemma break_at_none (p : ascii -> bool) (s : jstr) :
  Forall (fun c => p c = false) s -> break_at p s = (s, []).
Proof.
  induction 1 as [| c r Hc Hr IH]; [reflexivity |]. cbn [break_at]. rewrite Hc, IH.
  reflexivity.
Qed.

Lemma break_at_prefix (p : ascii -> bool) (a : jstr) (c : ascii) (b : jstr) :
  Forall (fun x => p x = false) a -> p c = true -> break_at p (a ++ c :: b) = (a, c :: b).
Proof.
  intros Ha Hc. induction Ha as [| x r Hx Hr IH]; cbn [break_at app].
  - rewrite Hc. reflexivity.
  - rewrite Hx, IH. reflexivity.
Qed.

Lemma percent_encode_none (in_set : ascii -> bool) (s : jstr) :
  Forall (fun c => in_set c = false) s -> percent_encode in_set s = s.
Proof.
  unfold percent_encode. induction 1 as [| c r Hc Hr IH]; [reflexivity |].
  cbn [flat_map]. rewrite Hc, IH. reflexivity.
Qed.

Lemma not_In_of_Forall (sep : ascii) (s : jstr) :
  Forall (fun c => ceq c sep = false) s -> ~ In sep s.
Proof.
  intros H Hin. rewrite Forall_forall in H. specialize (H sep Hin).
  rewrite ceq_refl in H. discriminate.
Qed.

Lemma js_split_join (parts : list jstr) :
  parts <> [] -> Forall (fun w => ~ In "&"%char w) parts ->
  js_split "&"%char (join_amp parts) = parts.
Proof.
  intros Hne H. induction H as [| w rest Hw Hrest IH]; [contradiction |].
  destruct rest as [| w' rest'].
  - apply js_split_nosep, Hw.
  - change (join_amp (w :: w' :: rest')) with (w ++ "&"%char :: join_amp (w' :: rest')).
    rewrite js_split_sep by exact Hw. rewrite IH by discriminate. reflexivity.
Qed.

Lemma form_char_not (c : ascii) :
  form_char c = true -> ceq c "&"%char = false /\ ceq c "="%char = false.
Proof.
  intros H. apply form_char_facts in H. apply andb_true_iff in H. destruct H as [H _].
  apply andb_true_iff in H. destruct H as [H1 H2]. apply negb_true_iff in H1, H2.
  split; assumption.
Qed.

Lemma form_parse_serialize (ps : list (jstr * jstr)) :
  ps <> [] -> form_parse (serialize_params ps) = ps.
Proof.
  intros Hne. unfold form_parse, serialize_params.
  rewrite js_split_join.
  - clear Hne. induction ps as [| [n v] rest IH]; [reflexivity |].
    cbn [map flat_map]. rewrite IH.
    pose proof (form_encode_chars n) as Hn.
    assert (Hn' : Forall (fun c => ceq c "="%char = false) (form_encode n)).
    { eapply Forall_impl; [| exact Hn]. intros c Hc. apply (form_char_not c Hc). }
    destruct (form_encode n ++ ["="%char] ++ form_encode v) as [| x xs] eqn:E.
    + destruct (form_encode n); discriminate.
    + rewrite <- E. cbn [app]. rewrite (break_at_prefix _ _ _ _ Hn' (ceq_refl _)).
      cbn [skipn]. rewrite !form_decode_encode. reflexivity.
  - destruct ps; [contradiction | discriminate].
  - apply Forall_forall. intros w Hw. apply in_map_iff in Hw.
    destruct Hw as [[n v] [<- _]]. intros Hin.
    apply in_app_or in Hin. destruct Hin as [Hin | [Heq | Hin]]; [| discriminate |].
    + pose proof (form_encode_chars n) as Hn. rewrite Forall_forall in Hn.
      destruct (form_char_not _ (Hn _ Hin)) as [Ha _]. rewrite ceq_refl in Ha. discriminate.
    + pose proof (form_encode_chars v) as Hv. rewrite Forall_forall in Hv.
      destruct (form_char_not _ (Hv _ Hin)) as [Ha _]. rewrite ceq_refl in Ha. discriminate.
Qed.

Lemma serialize_params_chars (ps : list (jstr * jstr)) :
  Forall (fun c => query_char c = true) (serialize_params ps).
Proof.
  assert (Hfe : forall s, Forall (fun c => query_char c = true) (form_encode s)).
  { intros s. eapply Forall_impl; [| apply form_encode_chars]. intros c Hc.
    apply form_char_facts in Hc. apply andb_true_iff in Hc. apply Hc. }
  unfold serialize_params. induction ps as [| [n v] rest IH]; [constructor |].
  cbn [map]. destruct rest as [| p' rest'].
  - cbn [join_amp]. apply Forall_app. split; [apply Hfe |].
    constructor; [reflexivity | apply Hfe].
  - change (join_amp (((fun '(n0, v0) => form_encode n0 ++ ["="%char] ++ form_encode v0)
                         (n, v)) :: map (fun '(n0, v0) =>
                         form_encode n0 ++ ["="%char] ++ form_encode v0) (p' :: rest')))
      with ((form_encode n ++ ["="%char] ++ form_encode v) ++ ["&"%char]
            ++ join_amp (map (fun '(n0, v0) => form_encode n0 ++ ["="%char] ++ form_encode v0)
                              (p' :: rest'))).
    repeat (apply Forall_app; split); try apply Hfe; try (constructor; [reflexivity | constructor]).
    exact IH.
Qed.

(** ** [new URL] on a built provisioning URI *)

Lemma drop_while_none (p : ascii -> bool) (s : jstr) :
  Forall (fun c => p c = false) s -> drop_while p s = s.
Proof. intros H. destruct H as [| c r Hc _]; [reflexivity |]. cbn [drop_while]. rewrite Hc. reflexivity. Qed.

Lemma trim_c0_none (s : jstr) :
  Forall (fun c => is_c0_or_space c = false) s -> trim_c0 s = s.
Proof.
  intros H. unfold trim_c0. rewrite (drop_while_none _ s H).
  rewrite (drop_while_none _ (rev s)) by (apply Forall_rev; exact H). apply rev_involutive.
Qed.

Lemma strip_tab_newline_none (s : jstr) :
  Forall (fun c => (in_range 9 10 c || (code c =? 13)%nat) = false) s ->
  strip_tab_newline s = s.
Proof.
  unfold strip_tab_newline. induction 1 as [| c r Hc Hr IH]; [reflexivity |].
  cbn [filter]. rewrite Hc, IH. reflexivity.
Qed.

Lemma enc_forall (E : jstr) (P : ascii -> bool) :
  (forall c, enc_char c = true -> P c = false) ->
  Forall (fun c => enc_char c = true) E -> Forall (fun c => P c = false) E.
Proof. intros H HE. eapply Forall_impl; [| exact HE]. exact H. Qed.

Lemma query_forall (Q : jstr) (P : ascii -> bool) :
  (forall c, query_char c = true -> P c = false) ->
  Forall (fun c => query_char c = true) Q -> Forall (fun c => P c = false) Q.
Proof. intros H HQ. eapply Forall_impl; [| exact HQ]. exact H. Qed.

Lemma enc_not (c : ascii) (H : enc_char c = true) :
  ceq c "#"%char = false /\ ceq c "?"%char = false /\ ceq c "/"%char = false /\
  path_set c = false /\ is_c0_or_space c = false /\
  (in_range 9 10 c || (code c =? 13)%nat) = false /\ ceq c ":"%char = false.
Proof.
  apply enc_char_facts in H. rewrite !andb_true_iff, !negb_true_iff in H. tauto.
Qed.

Lemma query_not (c : ascii) (H : query_char c = true) :
  ceq c "#"%char = false /\ query_set c = false /\ is_c0_or_space c = false /\
  (in_range 9 10 c || (code c =? 13)%nat) = false.
Proof.
  apply query_char_facts in H. rewrite !andb_true_iff, !negb_true_iff in H. tauto.
Qed.

Lemma parse_url_built (E Q : jstr) :
  Forall (fun c => enc_char c = true) E -> Forall (fun c => query_char c = true) Q ->
  parse_url (str "otpauth://totp/" ++ E ++ ["?"%char] ++ Q) =
  Ok {| protocol := str "otpauth:"; hostname := str "totp"; pathname := parse_path E;
        query := Q |}.
Proof.
  intros HE HQ. unfold parse_url.
  rewrite trim_c0_none, strip_tab_newline_none.
  2: { repeat (apply Forall_app; split);
       [repeat constructor | apply (enc_forall _ _ (fun c H => proj1 (proj2 (proj2 (proj2 (proj2 (proj2 (enc_not c H))))))) HE)
       | repeat constructor | apply (query_forall _ _ (fun c H => proj2 (proj2 (proj2 (query_not c H)))) HQ)]. }
  2: { repeat (apply Forall_app; split);
       [repeat constructor | apply (enc_forall _ _ (fun c H => proj1 (proj2 (proj2 (proj2 (proj2 (enc_not c H)))))) HE)
       | repeat constructor | apply (query_forall _ _ (fun c H => proj1 (proj2 (proj2 (query_not c H)))) HQ)]. }
  assert (Hs : scheme_split (str "otpauth://totp/" ++ E ++ ["?"%char] ++ Q) =
               Some (str "otpauth", str "//totp/" ++ E ++ ["?"%char] ++ Q)) by reflexivity.
  rewrite Hs. cbv beta iota.
  rewrite (break_at_none (fun c => ceq c "#"%char)).
  2: { repeat (apply Forall_app; split);
       [repeat constructor | apply (enc_forall _ _ (fun c H => proj1 (enc_not c H)) HE)
       | repeat constructor | apply (query_forall _ _ (fun c H => proj1 (query_not c H)) HQ)]. }
  cbv beta iota.
  assert (Hq : break_at (fun c => ceq c "?"%char) (str "//totp/" ++ E ++ ["?"%char] ++ Q)
               = (str "//totp/" ++ E, "?"%char :: Q)).
  { rewrite app_assoc. apply break_at_prefix; [| reflexivity].
    apply Forall_app. split; [repeat constructor |].
    apply (enc_forall _ _ (fun c H => proj1 (proj2 (enc_not c H))) HE). }
  rewrite Hq. cbv beta iota.
  rewrite (percent_encode_none query_set (skipn 1 ("?"%char :: Q)))
    by (apply (query_forall _ _ (fun c H => proj1 (proj2 (query_not c H))) HQ)).
  reflexivity.
Qed.

(** ** The label of a built provisioning URI *)

Lemma lower_inv (x : ascii) : x = to_lower_char x \/ x = to_upper_char (to_lower_char x).
Proof.
  assert (H : forall x, ceq x (to_lower_char x) || ceq x (to_upper_char (to_lower_char x))
                        = true)
    by (apply all_chars_spec; vm_compute; reflexivity).
  specialize (H x). apply orb_true_iff in H. rewrite !ceq_true in H. exact H.
Qed.

Lemma toLowerCase_inv (s t : jstr) :
  toLowerCase s = t -> Forall2 (fun a b => a = b \/ a = to_upper_char b) s t.
Proof.
  intros <-. induction s as [| c r IH]; constructor; [apply lower_inv | exact IH].
Qed.

Ltac dot_cases :=
  repeat match goal with
  | H : Forall2 _ _ [] |- _ => inversion H; subst; clear H
  | H : Forall2 _ _ (_ :: _) |- _ => inversion H; subst; clear H
  end;
  repeat match goal with H : _ = _ \/ _ = _ |- _ => destruct H as [H | H]; subst end;
  vm_compute; reflexivity.

Lemma single_dot_decode (seg : jstr) :
  is_single_dot seg = true -> decodeURIComponent seg = Ok (str ".").
Proof.
  unfold is_single_dot. rewrite orb_true_iff, !jstr_eqb_eq.
  intros [-> | H]; [reflexivity |]. apply toLowerCase_inv in H. cbn in H. dot_cases.
Qed.

Lemma double_dot_decode (seg : jstr) :
  is_double_dot seg = true -> decodeURIComponent seg = Ok (str "..").
Proof.
  unfold is_double_dot. rewrite !orb_true_iff, !jstr_eqb_eq.
  intros [[[H | H] | H] | H]; apply toLowerCase_inv in H; cbn in H; dot_cases.
Qed.

Lemma parse_path_plain (E : jstr) :
  Forall (fun c => enc_char c = true) E ->
  is_single_dot E = false -> is_double_dot E = false -> parse_path E = "/"%char :: E.
Proof.
  intros HE Hs Hd. unfold parse_path.
  rewrite js_split_nosep
    by (apply not_In_of_Forall, (enc_forall _ _ (fun c H => proj1 (proj2 (proj2 (enc_not c H)))) HE)).
  cbn [map]. rewrite percent_encode_none
    by (apply (enc_forall _ _ (fun c H => proj1 (proj2 (proj2 (proj2 (enc_not c H))))) HE)).
  cbn [push_segments]. rewrite Hs, Hd. cbn [app push_segments flat_map].
  rewrite app_nil_r. reflexivity.
Qed.

(** The label read back from the path of a built URI: the label itself,
    except that the dot segments [.] and [..] are removed by the URL
    parser. *)
Lemma decode_built_path (label : jstr) :
  ascii_str label ->
  decodeURIComponent (substring1 (parse_path (encodeURIComponent label))) =
  Ok (if jstr_eqb label (str ".") || jstr_eqb label (str "..") then [] else label).
Proof.
  intros Hl. destruct (jstr_eqb label (str ".")) eqn:E1.
  { apply jstr_eqb_eq in E1. subst label. reflexivity. }
  destruct (jstr_eqb label (str "..")) eqn:E2.
  { apply jstr_eqb_eq in E2. subst label. reflexivity. }
  cbn [orb].
  pose proof (decode_encodeURIComponent label Hl) as Hdec.
  rewrite parse_path_plain.
  - exact Hdec.
  - apply encodeURIComponent_chars.
  - destruct (is_single_dot (encodeURIComponent label)) eqn:S; [| reflexivity].
    apply single_dot_decode in S. rewrite Hdec in S. injection S as S. subst label.
    discriminate.
  - destruct (is_double_dot (encodeURIComponent label)) eqn:D; [| reflexivity].
    apply double_dot_decode in D. rewrite Hdec in D. injection D as D. subst label.
    discriminate.
Qed.

(** ** Secrets and numbers written into a provisioning URI *)

Lemma base32_chars_clean (c : ascii) :
  is_base32_char c || ceq c "="%char = true ->
  negb (is_js_space c) && ceq (to_upper_char c) c = true.
Proof.
  revert c. alphabet_fact (fun c => is_base32_char c || ceq c "="%char)
    (fun c => negb (is_js_space c) && ceq (to_upper_char c) c).
Qed.

Lemma clean_secret_id (s : jstr) : base32_re s = true -> clean_secret s = s.
Proof.
  intros H. apply base32_re_spec in H. destruct H as (body & pad & -> & _ & Hb & Hp).
  assert (Hall : Forall (fun c => is_base32_char c || ceq c "="%char = true) (body ++ pad)).
  { apply Forall_app. split.
    - eapply Forall_impl; [| exact Hb]. intros c Hc. rewrite Hc. reflexivity.
    - eapply Forall_impl; [| exact Hp]. intros c Hc. cbv beta in Hc. rewrite Hc. reflexivity. }
  unfold clean_secret, toUpperCase. induction Hall as [| c r Hc Hr IH]; [reflexivity |].
  apply base32_chars_clean, andb_true_iff in Hc. destruct Hc as [Hc1 Hc2].
  apply ceq_true in Hc2. cbn [filter]. rewrite Hc1. cbn [map]. rewrite Hc2, IH. reflexivity.
Qed.

Lemma validateAndCleanSecret_ok (secret cl : jstr) :
  validateAndCleanSecret secret = Ok cl ->
  cl = clean_secret secret /\ validateAndCleanSecret cl = Ok cl.
Proof.
  intros H. destruct secret as [| c r]; [discriminate |].
  unfold validateAndCleanSecret in H. cbv zeta in H.
  destruct (base32_re (clean_secret (c :: r))) eqn:Hre; [| discriminate].
  cbn [negb] in H.
  destruct (List.length (strip_trailing_pad (clean_secret (c :: r))) <? 8)%nat eqn:Hlen;
    [discriminate |].
  injection H as H. subst cl. split; [reflexivity |].
  destruct (clean_secret (c :: r)) as [| c' r'] eqn:Ecl; [discriminate |].
  unfold validateAndCleanSecret. cbv zeta. rewrite (clean_secret_id _ Hre), Hre.
  cbn [negb]. rewrite Hlen. reflexivity.
Qed.

Lemma period_roundtrip (p : Z) :
  1 <= p <= 300 -> parseInt (number_to_string p) = JNum p /\ is_empty (number_to_string p) = false.
Proof.
  intros Hp.
  set (check := fun z => match parseInt (number_to_string z) with
                         | JNum v => (v =? z) | JNaN => false end
                         && negb (is_empty (number_to_string z))).
  assert (Hall : forallb (fun n => check (Z.of_nat n)) (seq 1 300) = true)
    by (vm_compute; reflexivity).
  rewrite forallb_forall in Hall.
  specialize (Hall (Z.to_nat p) ltac:(apply in_seq; lia)).
  rewrite Z2Nat.id in Hall by lia. unfold check in Hall.
  apply andb_true_iff in Hall. destruct Hall as [H1 H2]. apply negb_true_iff in H2.
  split; [| exact H2].
  destruct (parseInt (number_to_string p)); [| discriminate].
  apply Z.eqb_eq in H1. subst. reflexivity.
Qed.

Lemma normalize_id (r : QRCodeResult) :
  num_in (qr_digits r) [6; 7; 8] = true ->
  jstr_in (qr_algorithm r) [str "SHA1"; str "SHA256"; str "SHA512"] = true ->
  num_lt (qr_period r) 1 || num_gt (qr_period r) 300 = false ->
  normalize_period (normalize_algorithm (normalize_digits r)) = r.
Proof.
  intros Hd Ha Hp. unfold normalize_digits. rewrite Hd. cbn [negb].
  unfold normalize_algorithm. rewrite Ha. cbn [negb].
  unfold normalize_period. rewrite Hp. reflexivity.
Qed.

Lemma ascii_str_app (a b : jstr) : ascii_str a -> ascii_str b -> ascii_str (a ++ b).
Proof. intros Ha Hb. apply Forall_app. split; assumption. Qed.

(** Claim C4: for an issuer and an account name of 7-bit characters, a
    secret accepted by the secret check, and options with algorithm [a],
    digits [d] and an integer period [p] in [1, 300], the URI built by
    [createOTPAuthURL] parses back to a TOTP descriptor whose secret is
    the cleaned secret (white space removed, upper-cased) and whose
    algorithm, digits and period are [a], [d] and [p].  When the issuer
    is nonempty the descriptor carries it, with the label
    [issuer:accountName] from which the account name is recovered; when
    the issuer is empty and the account name has no colon and is neither
    [.] nor [..], the descriptor has no issuer and its label is the
    account name. *)
Theorem createOTPAuthURL_roundtrip (issuer accountName secret : jstr) (options : TOTPOptions)
    (a : Algorithm) (d : Digits) (p : Z)
    (Hi : ascii_str issuer) (Hacc : ascii_str accountName)
    (Hs : validateSecret secret = true)
    (Ha : algorithm options = Some a) (Hd : digits options = Some d)
    (Hp : period options = Some p) (Hrange : 1 <= p <= 300) :
  exists url,
    createOTPAuthURL issuer accountName secret options = Ok url /\
  exists r,
    parseOTPAuthURL url = Ok r /\
    qr_type r = str "totp" /\ qr_secret r = clean_secret secret /\
    qr_algorithm r = algorithm_name a /\ qr_digits r = JNum (digits_num d) /\
    qr_period r = JNum p /\
    (issuer <> [] ->
       qr_issuer r = Some issuer /\ qr_label r = issuer ++ ":"%char :: accountName) /\
    (issuer = [] -> ~ In ":"%char accountName ->
       accountName <> str "." -> accountName <> str ".." ->
       qr_issuer r = None /\ qr_label r = accountName).
Proof.
  destruct (validateSecret_ok secret Hs) as [cl Hcl].
  destruct (validateAndCleanSecret_ok _ _ Hcl) as [Hcl_eq Hcl_idem].
  destruct (period_roundtrip p Hrange) as [Hpi Hpe].
  unfold createOTPAuthURL. rewrite Hcl. cbn [exc_bind]. rewrite Ha, Hd, Hp. cbv zeta.
  set (label := if is_empty issuer then accountName else issuer ++ [":"%char] ++ accountName).
  set (ps := [(str "secret", cl); (str "issuer", issuer); (str "algorithm", algorithm_name a);
              (str "digits", number_to_string (digits_num d));
              (str "period", number_to_string (or_default (Some p) 30))]).
  assert (Hlabel : ascii_str label).
  { unfold label. destruct (is_empty issuer); [exact Hacc |].
    apply ascii_str_app; [exact Hi | apply ascii_str_app; [| exact Hacc]].
    repeat constructor. }
  assert (Hor : or_default (Some p) 30 = p).
  { unfold or_default. destruct (Z.eqb_spec p 0); [lia | reflexivity]. }
  eexists. split; [reflexivity |].
  unfold parseOTPAuthURL.
  rewrite (parse_url_built (encodeURIComponent label) (serialize_params ps)
             (encodeURIComponent_chars label) (serialize_params_chars ps)).
  cbn [exc_bind protocol hostname pathname query].
  rewrite jstr_eqb_refl. cbn [negb].
  change (toLowerCase (str "totp")) with (str "totp").
  change (jstr_eqb (str "totp") (str "totp") || jstr_eqb (str "totp") (str "hotp"))
    with true.
  cbn [negb].
  rewrite (form_parse_serialize ps) by discriminate.
  change (params_get ps (str "secret")) with (Some cl).
  change (params_get ps (str "issuer")) with (Some issuer).
  change (params_get ps (str "algorithm")) with (Some (algorithm_name a)).
  change (params_get ps (str "digits")) with (Some (number_to_string (digits_num d))).
  change (params_get ps (str "period")) with (Some (number_to_string (or_default (Some p) 30))).
  rewrite Hor.
  rewrite (decode_built_path label Hlabel).
  destruct cl as [| c0 cl'] eqn:Ecl.
  { cbn in Hcl_idem. discriminate. }
  assert (Hv : validateSecret (c0 :: cl') = true)
    by (unfold validateSecret; rewrite Hcl_idem; reflexivity).
  rewrite Hv. cbn [negb exc_bind].
  assert (Hiss : or_str (Some issuer) [] = issuer)
    by (destruct issuer; reflexivity).
  set (L := if jstr_eqb label (str ".") || jstr_eqb label (str "..") then [] else label).
  destruct (parse_label L (Some issuer)) as [iss acc] eqn:EPL.
  cbn [rethrow_with].
  rewrite normalize_id.
  2: { cbn [qr_digits]. destruct d; vm_compute; reflexivity. }
  2: { cbn [qr_algorithm]. destruct a; vm_compute; reflexivity. }
  2: { cbn [qr_period]. unfold or_str. rewrite Hpe, Hpi. unfold num_lt, num_gt.
       rewrite (proj2 (Z.ltb_ge p 1)) by lia. rewrite (proj2 (Z.ltb_ge 300 p)) by lia.
       reflexivity. }
  eexists. split; [reflexivity |].
  cbn [qr_type qr_secret qr_algorithm qr_digits qr_period qr_issuer qr_label].
  split; [reflexivity |]. split; [exact Hcl_eq |].
  split; [destruct a; reflexivity |].
  split; [destruct d; reflexivity |].
  split; [unfold or_str; rewrite Hpe, Hpi; reflexivity |].
  split.
  - intros Hne.
    assert (Hie : is_empty issuer = false) by (destruct issuer; [congruence | reflexivity]).
    assert (Hlab : label = issuer ++ ":"%char :: accountName) by (unfold label; rewrite Hie; reflexivity).
    assert (Hcolon : In ":"%char label)
      by (rewrite Hlab; apply in_or_app; right; left; reflexivity).
    assert (HL : L = label).
    { unfold L. rewrite !jstr_eqb_false; [reflexivity | |];
        intros Heq; rewrite Heq in Hcolon; cbn in Hcolon; intuition discriminate. }
    rewrite HL in EPL. unfold parse_label in EPL. rewrite Hiss, Hie in EPL.
    apply includes_char_In in Hcolon. rewrite Hcolon in EPL. cbn [andb negb] in EPL.
    injection EPL as Eiss _. subst iss. rewrite Hie. split; [reflexivity |].
    rewrite HL. exact Hlab.
  - intros Hem Hnc Hn1 Hn2. subst issuer.
    assert (Hlab : label = accountName) by reflexivity.
    assert (HL : L = accountName).
    { unfold L. rewrite Hlab, !jstr_eqb_false by assumption. reflexivity. }
    rewrite HL in EPL. unfold parse_label in EPL. rewrite Hiss in EPL.
    assert (Hinc : includes_char ":"%char accountName = false).
    { destruct (includes_char ":"%char accountName) eqn:E; [| reflexivity].
      apply includes_char_In in E. contradiction. }
    rewrite Hinc in EPL. cbn [andb] in EPL.
    injection EPL as Eiss _. subst iss. split; [reflexivity | exact HL].
Qed.

Lemma createOTPAuthURL_roundtrip_witness :
  exists url,
    createOTPAuthURL (str "Example") (str "alice@google.com") (str "JBSWY3DPEHPK3PXP")
      {| algorithm := Some SHA256; digits := Some D8; period := Some 60; window := None |}
    = Ok url /\
  exists r,
    parseOTPAuthURL url = Ok r /\
    qr_issuer r = Some (str "Example") /\ qr_label r = str "Example:alice@google.com".
Proof.
  destruct (createOTPAuthURL_roundtrip (str "Example") (str "alice@google.com")
              (str "JBSWY3DPEHPK3PXP")
              {| algorithm := Some SHA256; digits := Some D8; period := Some 60; window := None |}
              SHA256 D8 60
              ltac:(repeat (apply Forall_cons; [apply Nat.ltb_lt; reflexivity |]); apply Forall_nil)
              ltac:(repeat (apply Forall_cons; [apply Nat.ltb_lt; reflexivity |]); apply Forall_nil)
              ltac:(vm_compute; reflexivity) eq_refl eq_refl eq_refl ltac:(lia))
    as [url [E1 [r [E2 [_ [_ [_ [_ [_ [Hne _]]]]]]]]]].
  exists url. split; [exact E1 |]. exists r. split; [exact E2 |].
  apply Hne. discriminate.
Defined.

(** Claim C4 (counterexample): with an empty issuer the issuer is not
    recovered.  The URI built for issuer [""] and account [x:y] and the
    one built for issuer [x] and account [y] differ only in the empty
    [issuer=] parameter, and both parse to the same descriptor, whose
    issuer is [x]. *)
Lemma createOTPAuthURL_issuer_ambiguous :
  let o := {| algorithm := Some SHA1; digits := Some D6; period := Some 30; window := None |} in
  createOTPAuthURL [] (str "x:y") (str "JBSWY3DPEHPK3PXP") o =
    Ok (str "otpauth://totp/x%3Ay?secret=JBSWY3DPEHPK3PXP&issuer=&algorithm=SHA1&digits=6&period=30") /\
  createOTPAuthURL (str "x") (str "y") (str "JBSWY3DPEHPK3PXP") o =
    Ok (str "otpauth://totp/x%3Ay?secret=JBSWY3DPEHPK3PXP&issuer=x&algorithm=SHA1&digits=6&period=30") /\
  exists r,
    parseOTPAuthURL (str "otpauth://totp/x%3Ay?secret=JBSWY3DPEHPK3PXP&issuer=&algorithm=SHA1&digits=6&period=30") = Ok r /\
    parseOTPAuthURL (str "otpauth://totp/x%3Ay?secret=JBSWY3DPEHPK3PXP&issuer=x&algorithm=SHA1&digits=6&period=30") = Ok r /\
    qr_issuer r = Some (str "x") /\ qr_label r = str "x:y".
Proof.
  intros o. split; [vm_compute; reflexivity |]. split; [vm_compute; reflexivity |].
  let v := eval vm_compute in
    (parseOTPAuthURL (str "otpauth://totp/x%3Ay?secret=JBSWY3DPEHPK3PXP&issuer=x&algorithm=SHA1&digits=6&period=30")) in
  lazymatch v with Ok ?r => exists r end.
  repeat split; vm_compute; reflexivity.
Qed.

(** The derived constants give the FIPS 180-4 example digests of [abc]. *)
Lemma sha2_abc :
  Sha.sha256 [97; 98; 99] =
    [
     0xba; 0x78; 0x16; 0xbf; 0x8f; 0x01; 0xcf; 0xea; 0x41; 0x41; 0x40; 0xde; 0x5d; 0xae; 0x22; 0x23;
     0xb0; 0x03; 0x61; 0xa3; 0x96; 0x17; 0x7a; 0x9c; 0xb4; 0x10; 0xff; 0x61; 0xf2; 0x00; 0x15; 0xad] /\
  Sha.sha512 [97; 98; 99] =
    [
     0xdd; 0xaf; 0x35; 0xa1; 0x93; 0x61; 0x7a; 0xba; 0xcc; 0x41; 0x73; 0x49; 0xae; 0x20; 0x41; 0x31;
     0x12; 0xe6; 0xfa; 0x4e; 0x89; 0xa9; 0x7e; 0xa2; 0x0a; 0x9e; 0xee; 0xe6; 0x4b; 0x55; 0xd3; 0x9a;
     0x21; 0x92; 0x99; 0x2a; 0x27; 0x4f; 0xc1; 0xa8; 0x36; 0xba; 0x3c; 0x23; 0xa3; 0xfe; 0xeb; 0xbd;
     0x45; 0x4d; 0x44; 0x23; 0x64; 0x3c; 0xe8; 0x0e; 0x2a; 0x9a; 0xc9; 0x4f; 0xa5; 0x4c; 0xa4; 0x9f].
Proof. split; vm_compute; reflexivity. Qed.

(** * Further properties of the service and of its callers *)

(** ** Generating and validating codes *)

(** A code generated at some clock value is accepted at that clock value
    with the same options, whatever the options and the digest function. *)
Theorem validateTOTP_accepts_generated
    (cd : HashAlgorithm -> list Z -> list Z -> exc (list Z))
    (now : Z) (secret code : jstr) (options : TOTPOptions)
    (H : generateTOTP cd now secret options = Ok code) :
  validateTOTP cd now code secret options = Ok true.
Proof.
  apply generateTOTP_ok in H. destruct H as [cl [Hcl Ht]].
  unfold validateTOTP, validateTOTP_try. rewrite Hcl. cbn [exc_bind].
  unfold totp_check, totpCheckWithWindow.
  rewrite (totpCheck_token _ _ _ _ _ _ Ht), (totpToken_valid _ _ _ _ _ Ht), jstr_eqb_refl.
  reflexivity.
Qed.

Lemma validateTOTP_accepts_generated_witness :
  generateTOTP cryptoDigest 59000 (str "JBSWY3DPEHPK3PXP") no_options = Ok (str "733643") /\
  validateTOTP cryptoDigest 59000 (str "733643") (str "JBSWY3DPEHPK3PXP") no_options = Ok true.
Proof.
  assert (H : generateTOTP cryptoDigest 59000 (str "JBSWY3DPEHPK3PXP") no_options
              = Ok (str "733643")) by (vm_compute; reflexivity).
  split; [exact H |].
  exact (validateTOTP_accepts_generated cryptoDigest 59000 _ _ no_options H).
Defined.

Lemma totpToken_shape
    (cd : HashAlgorithm -> list Z -> list Z -> exc (list Z))
    (secret tok : jstr) (options : TOTPOptions) (e : Z) :
  totpToken cd secret (totpOptions options) e = Ok tok ->
  Forall (fun c => is_digit c = true) tok /\
  List.length tok = Z.to_nat (o_digits (totpOptions options)).
Proof.
  destruct (totpOptions_digits options) as [d [Hd [Hod Hnat]]].
  unfold totpToken, hotpToken. rewrite Hnat, Hod.
  destruct (cd _ _ _) as [digest | m]; cbv beta iota delta [exc_bind]; intros H;
    [| discriminate].
  injection H as H. subst tok. apply hotpDigestToToken_shape. lia.
Qed.


Lemma check_from_not_found
    (cd : HashAlgorithm -> list Z -> list Z -> exc (list Z))
    (token secret : jstr) (o : OtpOptions)
    (Hno : forall e, not_true (totpCheck cd token secret o e)) :
  forall epochs pos,
    totpCheckByEpoch_from cd pos epochs token secret o = Ok None \/
    exists m, totpCheckByEpoch_from cd pos epochs token secret o = Throw m.
Proof.
  induction epochs as [| e rest IH]; intros pos; cbn [totpCheckByEpoch_from].
  - left. reflexivity.
  - destruct (Hno e) as [-> | [m ->]]; cbn [exc_bind].
    + apply IH.
    + right. exists m. reflexivity.
Qed.

Lemma totp_check_not_found
    (cd : HashAlgorithm -> list Z -> list Z -> exc (list Z))
    (now : Z) (token secret : jstr) (o : OtpOptions)
    (Hno : forall e, not_true (totpCheck cd token secret o e)) :
  not_true (totp_check cd now o token secret).
Proof.
  unfold totp_check, totpCheckWithWindow, totpCheckByEpoch, getWindowBounds.
  cbn [fst snd].
  destruct (Hno now) as [-> | [m ->]]; cbn [exc_bind]; [| right; exists m; reflexivity].
  destruct (check_from_not_found cd token secret o Hno
              (totpEpochsInWindow now (-1) (o_step o * 1000) (Z.abs (o_window o))) 1)
    as [-> | [m ->]]; cbn [exc_bind]; [| right; exists m; reflexivity].
  destruct (check_from_not_found cd token secret o Hno
              (totpEpochsInWindow now 1 (o_step o * 1000) (Z.abs (o_window o))) 1)
    as [-> | [m ->]]; cbn [exc_bind]; [left; reflexivity | right; exists m; reflexivity].
Qed.

(** A code that is not a string of exactly the configured number of
    decimal digits (6 unless [options.digits] says 7 or 8) is rejected,
    whatever the secret, the options, the clock and the digest function;
    the empty code and codes with a letter or a space are among them. *)
Theorem validateTOTP_rejects_malformed
    (cd : HashAlgorithm -> list Z -> list Z -> exc (list Z))
    (now : Z) (code secret : jstr) (options : TOTPOptions)
    (Hshape : ~ (Forall (fun c => is_digit c = true) code /\
                 List.length code = Z.to_nat (o_digits (totpOptions options)))) :
  validateTOTP cd now code secret options = Ok false.
Proof.
  unfold validateTOTP, validateTOTP_try.
  destruct (validateAndCleanSecret secret) as [cl | m]; cbn [exc_bind]; [| reflexivity].
  assert (Hno : forall e, not_true (totpCheck cd code cl (totpOptions options) e)).
  { intros e. unfold not_true, totpCheck.
    destruct (isTokenValid code); cbn [negb]; [| left; reflexivity].
    destruct (totpToken cd cl (totpOptions options) e) as [t | m] eqn:Et;
      cbn [exc_bind]; [left | right; exists m; reflexivity].
    destruct (jstr_eqb code t) eqn:Eq; [| reflexivity].
    apply jstr_eqb_eq in Eq. subst t. exfalso. apply Hshape.
    exact (totpToken_shape cd cl code options e Et). }
  destruct (totp_check_not_found cd now code cl _ Hno) as [-> | [m ->]]; reflexivity.
Qed.

Lemma validateTOTP_rejects_malformed_witness :
  validateTOTP cryptoDigest 59000 (str "73364") (str "JBSWY3DPEHPK3PXP") no_options = Ok false.
Proof.
  apply validateTOTP_rejects_malformed. intros [_ Hlen]. vm_compute in Hlen. discriminate.
Defined.

Lemma check_from_spec
    (cd : HashAlgorithm -> list Z -> list Z -> exc (list Z))
    (token secret : jstr) (o : OtpOptions)
    (Htok : forall e, exists t, totpToken cd secret o e = Ok t) :
  forall epochs pos, exists r,
    totpCheckByEpoch_from cd pos epochs token secret o = Ok r /\
    (r <> None <-> exists e, In e epochs /\ isTokenValid token = true /\
                             totpToken cd secret o e = Ok token).
Proof.
  induction epochs as [| e rest IH]; intros pos; cbn [totpCheckByEpoch_from].
  - exists None. split; [reflexivity |]. split; [congruence |]. intros [e [[] _]].
  - destruct (Htok e) as [t Ht]. rewrite (totpCheck_token _ _ _ _ _ _ Ht).
    destruct (isTokenValid token && jstr_eqb token t) eqn:Eb; cbn [exc_bind].
    + exists (Some pos). split; [reflexivity |]. split; [| congruence].
      intros _. apply andb_true_iff in Eb. destruct Eb as [Hv He].
      apply jstr_eqb_eq in He. subst t. exists e. split; [left; reflexivity | split; assumption].
    + destruct (IH (S pos)) as [r [Hr Hiff]]. exists r. split; [exact Hr |].
      rewrite Hiff. split.
      * intros [e' [Hin Hrest]]. exists e'. split; [right; exact Hin | exact Hrest].
      * intros [e' [[<- | Hin] [Hv Ht']]].
        -- rewrite Ht in Ht'. injection Ht' as Ht'. subst t.
           rewrite Hv, jstr_eqb_refl in Eb. discriminate.
        -- exists e'. split; [exact Hin | split; assumption].
Qed.

Lemma in_totpEpochsInWindow (now dir delta w e : Z) :
  In e (totpEpochsInWindow now dir delta w) <->
  exists i, 1 <= i <= w /\ e = now + dir * i * delta.
Proof.
  unfold totpEpochsInWindow. rewrite in_map_iff. split.
  - intros [k [<- Hk]]. apply in_seq in Hk. exists (Z.of_nat k). split; [| reflexivity]. lia.
  - intros [i [Hi ->]]. exists (Z.to_nat i). split; [rewrite Z2Nat.id by lia; reflexivity |].
    apply in_seq. lia.
Qed.


Lemma cryptoDigest_total : forall a k m, exists d, cryptoDigest a k m = Ok d.
Proof. intros a k m. destruct a; eexists; reflexivity. Qed.


(** ** Formatting of secrets *)

Lemma validateAndCleanSecret_same_clean (s1 s2 : jstr) :
  validateSecret s1 = true -> clean_secret s1 = clean_secret s2 ->
  validateAndCleanSecret s2 = validateAndCleanSecret s1.
Proof.
  intros H1 Hc. destruct (validateSecret_ok s1 H1) as [cl Hcl].
  destruct s1 as [| a s1']; [discriminate |].
  destruct s2 as [| b s2'].
  - exfalso. rewrite clean_secret_nil in Hc. unfold validateAndCleanSecret in Hcl.
    cbv zeta in Hcl. rewrite Hc in Hcl. discriminate.
  - unfold validateAndCleanSecret. cbv zeta. rewrite Hc. reflexivity.
Qed.

(** Two secrets that differ only in white space and letter case (they
    clean to the same string) give the same codes and the same
    validation answers, when one of them passes the secret check: e.g.
    [jbsw y3dp ehpk 3pxp] and [JBSWY3DPEHPK3PXP]. *)
Theorem secret_formatting_irrelevant
    (cd : HashAlgorithm -> list Z -> list Z -> exc (list Z)) (s1 s2 : jstr)
    (H1 : validateSecret s1 = true) (Hc : clean_secret s1 = clean_secret s2) :
  forall now code options,
    generateTOTP cd now s2 options = generateTOTP cd now s1 options /\
    validateTOTP cd now code s2 options = validateTOTP cd now code s1 options.
Proof.
  intros now code options.
  pose proof (validateAndCleanSecret_same_clean s1 s2 H1 Hc) as E.
  unfold generateTOTP, validateTOTP, validateTOTP_try. rewrite E. split; reflexivity.
Qed.

Lemma secret_formatting_irrelevant_witness :
  generateTOTP cryptoDigest 59000 (str "jbsw y3dp ehpk 3pxp") no_options =
  generateTOTP cryptoDigest 59000 (str "JBSWY3DPEHPK3PXP") no_options.
Proof.
  exact (proj1 (secret_formatting_irrelevant cryptoDigest (str "JBSWY3DPEHPK3PXP")
                  (str "jbsw y3dp ehpk 3pxp") ltac:(vm_compute; reflexivity)
                  ltac:(vm_compute; reflexivity) 59000 [] no_options)).
Defined.

(** ** Time slots *)

Lemma getCurrentTimeSlot_div (t p : Z) :
  0 < p -> getCurrentTimeSlot t p = t / (p * 1000).
Proof.
  intros Hp. unfold getCurrentTimeSlot. rewrite Z.div_div by lia.
  rewrite Z.mul_comm. reflexivity.
Qed.

(** For a positive period, the countdown of [getTimeRemaining] is
    between 1 and [period] seconds; [getCurrentTimeSlot] keeps its value
    at every whole second before the countdown ends and moves to the next
    slot when it ends. *)
Theorem getTimeRemaining_countdown (now period : Z) (Hp : 0 < period) :
  1 <= getTimeRemaining now period <= period /\
  getTimeRemaining now period = period - (now / 1000) mod period /\
  (forall k, 0 <= k < getTimeRemaining now period ->
     getCurrentTimeSlot ((now / 1000 + k) * 1000) period = getCurrentTimeSlot now period) /\
  getCurrentTimeSlot ((now / 1000 + getTimeRemaining now period) * 1000) period =
    getCurrentTimeSlot now period + 1.
Proof.
  unfold getTimeRemaining, getCurrentTimeSlot. cbv zeta.
  set (n := now / 1000).
  pose proof (Z.div_mod n period ltac:(lia)) as Hdm.
  pose proof (Z.mod_pos_bound n period Hp) as Hm.
  set (q := n / period) in *. set (m := n mod period) in *.
  assert (Hr : (q + 1) * period - n = period - m) by lia.
  rewrite Hr. split; [lia |]. split; [reflexivity |]. split.
  - intros k Hk. rewrite Z.div_mul by lia.
    symmetry. apply (Z.div_unique_pos (n + k) period q (m + k)); lia.
  - rewrite Z.div_mul by lia.
    symmetry. apply (Z.div_unique_pos (n + (period - m)) period (q + 1) 0); lia.
Qed.

Lemma getTimeRemaining_countdown_witness :
  getTimeRemaining 59000 30 = 1 /\
  getCurrentTimeSlot ((59000 / 1000 + getTimeRemaining 59000 30) * 1000) 30 =
    getCurrentTimeSlot 59000 30 + 1.
Proof.
  split; [reflexivity |].
  exact (proj2 (proj2 (proj2 (getTimeRemaining_countdown 59000 30 ltac:(lia))))).
Defined.

Lemma generateTOTP_counter
    (cd : HashAlgorithm -> list Z -> list Z -> exc (list Z))
    (t1 t2 : Z) (secret : jstr) (options : TOTPOptions) :
  t1 / (or_default (period options) 30 * 1000) = t2 / (or_default (period options) 30 * 1000) ->
  generateTOTP cd t1 secret options = generateTOTP cd t2 secret options.
Proof.
  intros H. unfold generateTOTP, totp_generate.
  destruct (validateAndCleanSecret secret) as [cl | m]; cbn [exc_bind]; [| reflexivity].
  rewrite (totpToken_counter cd cl (totpOptions options) t1 t2 H). reflexivity.
Qed.

(** Two clock values in the same time slot of [getCurrentTimeSlot] (for
    the period [options.period || 30], when positive) give the same
    result of [generateTOTP]. *)
Theorem generateTOTP_same_slot
    (cd : HashAlgorithm -> list Z -> list Z -> exc (list Z))
    (t1 t2 : Z) (secret : jstr) (options : TOTPOptions)
    (Hp : 0 < or_default (period options) 30)
    (Hs : getCurrentTimeSlot t1 (or_default (period options) 30) =
          getCurrentTimeSlot t2 (or_default (period options) 30)) :
  generateTOTP cd t1 secret options = generateTOTP cd t2 secret options.
Proof.
  apply generateTOTP_counter. rewrite !getCurrentTimeSlot_div in Hs by exact Hp. exact Hs.
Qed.

Lemma generateTOTP_same_slot_witness :
  generateTOTP cryptoDigest 30000 (str "JBSWY3DPEHPK3PXP") no_options =
  generateTOTP cryptoDigest 59999 (str "JBSWY3DPEHPK3PXP") no_options.
Proof.
  apply generateTOTP_same_slot; reflexivity.
Defined.

(** ** Code ranges *)

Lemma range_loop_spec
    (cd : HashAlgorithm -> list Z -> list Z -> exc (list Z))
    (secret : jstr) (options : TOTPOptions) (p cur : Z) :
  forall is l, range_loop cd secret options p cur is = Ok l ->
  Forall2 (fun i e =>
    tc_timeSlot e = cur + i /\ tc_validFrom e = (cur + i) * p * 1000 /\
    tc_validTo e = ((cur + i) * p + p) * 1000 /\
    generateTOTP cd ((cur + i) * p * 1000) secret options = Ok (tc_code e)) is l.
Proof.
  induction is as [| i rest IH]; intros l H; cbn [range_loop] in H.
  - injection H as <-. constructor.
  - destruct (generateTOTP cd ((cur + i) * p * 1000) secret options) as [c | m] eqn:Eg;
      cbn [exc_bind] in H; [| discriminate].
    destruct (range_loop cd secret options p cur rest) as [l' | m] eqn:Er;
      cbn [exc_bind] in H; [| discriminate].
    injection H as <-. constructor; [cbn; repeat split; assumption || reflexivity |].
    apply IH. reflexivity.
Qed.

Lemma Forall2_nth_error {A B} (R : A -> B -> Prop) (xs : list A) (ys : list B) :
  Forall2 R xs ys -> forall k y, nth_error ys k = Some y ->
  exists x, nth_error xs k = Some x /\ R x y.
Proof.
  induction 1 as [| x y xs' ys' Hr _ IH]; intros k y' Hk.
  - destruct k; discriminate.
  - destruct k as [| k]; cbn in Hk |- *.
    + injection Hk as <-. exists x. split; [reflexivity | exact Hr].
    + apply IH. exact Hk.
Qed.

Lemma nth_error_range_indices (periods : Z) (k : nat) (i : Z) :
  nth_error (range_indices periods) k = Some i -> i = - (periods / 2) + Z.of_nat k.
Proof.
  unfold range_indices. rewrite nth_error_map.
  destruct (nth_error (seq 0 (Z.to_nat (2 * (periods / 2) + 1))) k) as [j |] eqn:E;
    cbn; [| discriminate].
  intros Hi. injection Hi as <-.
  assert (Hk : (k < Z.to_nat (2 * (periods / 2) + 1))%nat).
  { assert (Hne : nth_error (seq 0 (Z.to_nat (2 * (periods / 2) + 1))) k <> None)
      by (rewrite E; discriminate).
    apply nth_error_Some in Hne. rewrite length_seq in Hne. exact Hne. }
  rewrite (nth_error_nth' _ 0%nat) in E by (rewrite length_seq; exact Hk).
  injection E as <-. rewrite seq_nth by exact Hk. reflexivity.
Qed.

(** When [generateTOTPRange(secret, periods, options)] returns a list, it
    has [2 * floor(periods / 2) + 1] entries (none for a negative
    [periods]); entry [k] is for time slot [current - floor(periods / 2) + k],
    its validity runs from the start of that slot to the start of the
    next one, and (for a positive period) its code is what [generateTOTP]
    returns at every clock value in that interval.  For [periods >= 0]
    the middle entry is the current slot and holds the code that
    [generateTOTP] returns now. *)
Theorem generateTOTPRange_entries
    (cd : HashAlgorithm -> list Z -> list Z -> exc (list Z))
    (now : Z) (secret : jstr) (periods : Z) (options : TOTPOptions)
    (l : list TimeSlotCode) (H : generateTOTPRange cd now secret periods options = Ok l) :
  List.length l = Z.to_nat (2 * (periods / 2) + 1) /\
  (forall k e, nth_error l k = Some e ->
     tc_timeSlot e = getCurrentTimeSlot now (or_default (period options) 30)
                     - periods / 2 + Z.of_nat k /\
     tc_validFrom e = tc_timeSlot e * or_default (period options) 30 * 1000 /\
     tc_validTo e = tc_validFrom e + or_default (period options) 30 * 1000 /\
     (0 < or_default (period options) 30 ->
      forall t, tc_validFrom e <= t < tc_validTo e ->
        generateTOTP cd t secret options = Ok (tc_code e))) /\
  (0 <= periods -> 0 < or_default (period options) 30 ->
   exists e, nth_error l (Z.to_nat (periods / 2)) = Some e /\
     tc_timeSlot e = getCurrentTimeSlot now (or_default (period options) 30) /\
     generateTOTP cd now secret options = Ok (tc_code e)).
Proof.
  unfold generateTOTPRange in H. cbv zeta in H.
  set (p := or_default (period options) 30) in *.
  set (cur := getCurrentTimeSlot now p) in *.
  pose proof (range_loop_spec cd secret options p cur _ _ H) as HF.
  assert (Hlen : List.length l = Z.to_nat (2 * (periods / 2) + 1)).
  { rewrite <- (Forall2_length HF). unfold range_indices.
    rewrite length_map, length_seq. reflexivity. }
  assert (Hent : forall k e, nth_error l k = Some e ->
     tc_timeSlot e = cur - periods / 2 + Z.of_nat k /\
     tc_validFrom e = tc_timeSlot e * p * 1000 /\
     tc_validTo e = tc_validFrom e + p * 1000 /\
     (0 < p -> forall t, tc_validFrom e <= t < tc_validTo e ->
        generateTOTP cd t secret options = Ok (tc_code e))).
  { intros k e Hk.
    destruct (Forall2_nth_error _ _ _ HF k e Hk) as [i [Hi [Hts [Hfrom [Hto Hg]]]]].
    apply nth_error_range_indices in Hi. subst i.
    split; [rewrite Hts; lia |].
    split; [rewrite Hfrom, Hts; reflexivity |].
    split; [rewrite Hto, Hfrom; lia |].
    intros Hp t Ht. rewrite <- Hg. apply generateTOTP_counter. fold p.
    rewrite Hfrom, Hto in Ht.
    transitivity (cur + (- (periods / 2) + Z.of_nat k)).
    + symmetry. apply (Z.div_unique_pos t (p * 1000) _ (t - (cur + (- (periods / 2) + Z.of_nat k)) * p * 1000));
        lia.
    + apply (Z.div_unique_pos _ (p * 1000) _ 0); lia. }
  split; [exact Hlen |]. split; [exact Hent |].
  intros Hper Hp.
  assert (Hh : 0 <= periods / 2) by (apply Z.div_pos; lia).
  destruct (nth_error l (Z.to_nat (periods / 2))) as [e |] eqn:E.
  2: { exfalso. apply nth_error_None in E. rewrite Hlen in E. lia. }
  exists e. split; [reflexivity |].
  destruct (Hent _ e E) as [Hts [Hfrom [Hto Hgen]]].
  rewrite Z2Nat.id in Hts by exact Hh.
  split; [rewrite Hts; lia |].
  apply (Hgen Hp). rewrite Hto, Hfrom, Hts.
  replace (cur - periods / 2 + periods / 2) with cur by lia.
  unfold cur. rewrite getCurrentTimeSlot_div by exact Hp.
  pose proof (Z.div_mod now (p * 1000) ltac:(lia)).
  pose proof (Z.mod_pos_bound now (p * 1000) ltac:(lia)).
  nia.
Qed.

Lemma generateTOTPRange_entries_witness :
  generateTOTPRange cryptoDigest 59000 (str "JBSWY3DPEHPK3PXP") 3 no_options =
    Ok [ {| tc_code := str "675227"; tc_timeSlot := 0; tc_validFrom := 0; tc_validTo := 30000 |};
         {| tc_code := str "733643"; tc_timeSlot := 1; tc_validFrom := 30000; tc_validTo := 60000 |};
         {| tc_code := str "966000"; tc_timeSlot := 2; tc_validFrom := 60000; tc_validTo := 90000 |} ] /\
  List.length [ {| tc_code := str "675227"; tc_timeSlot := 0; tc_validFrom := 0; tc_validTo := 30000 |};
         {| tc_code := str "733643"; tc_timeSlot := 1; tc_validFrom := 30000; tc_validTo := 60000 |};
         {| tc_code := str "966000"; tc_timeSlot := 2; tc_validFrom := 60000; tc_validTo := 90000 |} ]
    = 3%nat.
Proof.
  assert (H : generateTOTPRange cryptoDigest 59000 (str "JBSWY3DPEHPK3PXP") 3 no_options =
    Ok [ {| tc_code := str "675227"; tc_timeSlot := 0; tc_validFrom := 0; tc_validTo := 30000 |};
         {| tc_code := str "733643"; tc_timeSlot := 1; tc_validFrom := 30000; tc_validTo := 60000 |};
         {| tc_code := str "966000"; tc_timeSlot := 2; tc_validFrom := 60000; tc_validTo := 90000 |} ])
    by (vm_compute; reflexivity).
  split; [exact H |].
  exact (proj1 (generateTOTPRange_entries cryptoDigest 59000 _ 3 no_options _ H)).
Defined.

Lemma generateTOTP_total
    (cd : HashAlgorithm -> list Z -> list Z -> exc (list Z))
    (Htotal : forall a k m, exists d, cd a k m = Ok d)
    (now : Z) (secret : jstr) (options : TOTPOptions) :
  validateSecret secret = true -> exists code, generateTOTP cd now secret options = Ok code.
Proof.
  intros Hv. destruct (validateSecret_ok secret Hv) as [cl Hcl].
  unfold generateTOTP, totp_generate, totpToken, hotpToken. rewrite Hcl. cbn [exc_bind].
  destruct (Htotal (o_algorithm (totpOptions options))
              (totpCreateHmacKey (o_algorithm (totpOptions options)) cl)
              (hotpCounter (totpCounter now (o_step (totpOptions options))))) as [d Hd].
  rewrite Hd. cbn [exc_bind rethrow_with]. eexists. reflexivity.
Qed.

Lemma range_loop_total
    (cd : HashAlgorithm -> list Z -> list Z -> exc (list Z))
    (secret : jstr) (options : TOTPOptions) (p cur : Z) :
  (forall t, exists code, generateTOTP cd t secret options = Ok code) ->
  forall is, exists l, range_loop cd secret options p cur is = Ok l.
Proof.
  intros Hg is. induction is as [| i rest [l IH]]; cbn [range_loop].
  - eexists. reflexivity.
  - destruct (Hg ((cur + i) * p * 1000)) as [c Hc]. rewrite Hc. cbn [exc_bind].
    rewrite IH. cbn [exc_bind]. eexists. reflexivity.
Qed.

(** [generateTOTPRange] with a negative [periods] runs no iteration and
    returns the empty list, whatever the secret.  With [periods >= 0] and
    a secret that [validateAndCleanSecret] rejects with message [e], it
    throws ["Failed to generate TOTP: " ++ e].  With a digest that always
    answers and a secret that passes [validateSecret], it returns a list. *)
Theorem generateTOTPRange_errors
    (cd : HashAlgorithm -> list Z -> list Z -> exc (list Z))
    (now : Z) (secret : jstr) (periods : Z) (options : TOTPOptions) :
  (periods < 0 -> generateTOTPRange cd now secret periods options = Ok []) /\
  (forall e, 0 <= periods -> validateAndCleanSecret secret = Throw e ->
     generateTOTPRange cd now secret periods options
     = Throw (String.append "Failed to generate TOTP: " e)) /\
  ((forall a k m, exists d, cd a k m = Ok d) -> validateSecret secret = true ->
     exists l, generateTOTPRange cd now secret periods options = Ok l).
Proof.
  split; [| split].
  - intros Hneg. unfold generateTOTPRange, range_indices.
    assert (Hh : periods / 2 < 0) by (apply Z.div_lt_upper_bound; lia).
    replace (Z.to_nat (2 * (periods / 2) + 1)) with 0%nat by lia. reflexivity.
  - intros e Hper He. unfold generateTOTPRange, range_indices.
    assert (Hh : 0 <= periods / 2) by (apply Z.div_pos; lia).
    destruct (Z.to_nat (2 * (periods / 2) + 1)) as [| n] eqn:En; [lia |].
    cbn [seq map range_loop].
    unfold generateTOTP at 1. rewrite He. reflexivity.
  - intros Htot Hv.
    apply range_loop_total. intros t. apply generateTOTP_total; assumption.
Qed.

Lemma generateTOTPRange_errors_witness :
  validateAndCleanSecret (str "JBSW3") = Throw "Secret is too short (minimum 8 characters without padding)" /\
  generateTOTPRange cryptoDigest 59000 (str "JBSW3") 3 no_options =
    Throw "Failed to generate TOTP: Secret is too short (minimum 8 characters without padding)".
Proof.
  assert (H : validateAndCleanSecret (str "JBSW3")
              = Throw "Secret is too short (minimum 8 characters without padding)")
    by (vm_compute; reflexivity).
  split; [exact H |].
  exact (proj1 (proj2 (generateTOTPRange_errors cryptoDigest 59000 (str "JBSW3") 3 no_options))
           _ ltac:(lia) H).
Defined.

(** ** Test secrets *)

Lemma forallb_seq_Z (f : Z -> bool) (a n : nat) :
  forallb (fun k => f (Z.of_nat k)) (seq a n) = true ->
  forall b, Z.of_nat a <= b < Z.of_nat (a + n) -> f b = true.
Proof.
  intros H b Hb. rewrite forallb_forall in H.
  rewrite <- (Z2Nat.id b) by lia. apply H. apply in_seq. lia.
Qed.

Lemma encode_digit_bound (s c n : Z) :
  3 < s < 8 -> 0 <= c < 256 -> 0 <= n < 256 ->
  0 <= Z.lor (Z.shiftl (Z.land c (Z.shiftr 255 s)) ((s + 5) mod 8))
             (Z.shiftr n (8 - (s + 5) mod 8)) < 32.
Proof.
  intros Hs Hc Hn.
  pose (P := fun s c n : Z =>
    let d := Z.lor (Z.shiftl (Z.land c (Z.shiftr 255 s)) ((s + 5) mod 8))
                   (Z.shiftr n (8 - (s + 5) mod 8)) in
    (0 <=? d) && (d <? 32)).
  assert (H : forallb (fun s => forallb (fun c => forallb (fun n =>
      P (Z.of_nat s) (Z.of_nat c) (Z.of_nat n)) (seq 0 256)) (seq 0 256)) (seq 4 4) = true)
    by (vm_compute; reflexivity).
  pose proof (forallb_seq_Z (fun s => forallb (fun c => forallb (fun n =>
      P s (Z.of_nat c) (Z.of_nat n)) (seq 0 256)) (seq 0 256)) 4 4 H s ltac:(lia)) as Hs'.
  pose proof (forallb_seq_Z (fun c => forallb (fun n =>
      P s c (Z.of_nat n)) (seq 0 256)) 0 256 Hs' c ltac:(lia)) as Hc'.
  pose proof (forallb_seq_Z (fun n => P s c n) 0 256 Hc' n ltac:(lia)) as Hn'.
  unfold P in Hn'. cbv beta zeta in Hn'. apply andb_true_iff in Hn' as [H1 H2]. lia.
Qed.

Lemma charCodeAt_base32 (k : Z) :
  0 <= k < 32 -> is_base32_char (chr (Z.to_nat (charCodeAt k))) = true.
Proof.
  apply (forallb_seq_Z (fun k => is_base32_char (chr (Z.to_nat (charCodeAt k)))) 0 32).
  vm_compute. reflexivity.
Qed.

Lemma nth_byte (plain : list Z) (k : nat) :
  Forall (fun b => 0 <= b < 256) plain -> 0 <= nth k plain 0 < 256.
Proof.
  intros H. revert k. induction H as [| b r Hb _ IH]; intros [| k]; cbn; auto; lia.
Qed.

Lemma encode_loop_chars (plain : list Z) (Hp : Forall (fun b => 0 <= b < 256) plain) :
  forall fuel i s, 0 <= s < 8 ->
  Forall (fun d => is_base32_char (chr (Z.to_nat d)) = true) (encode_loop fuel plain i s).
Proof.
  induction fuel as [| f IH]; intros i s Hs; cbn [encode_loop]; [constructor |].
  destruct (i <? Z.of_nat (List.length plain)); [| constructor].
  assert (Hs' : 0 <= (s + 5) mod 8 < 8) by (apply Z.mod_pos_bound; lia).
  destruct (Z.ltb_spec 3 s) as [H3 | H3].
  - constructor; [| apply IH; exact Hs'].
    apply charCodeAt_base32. apply encode_digit_bound; [lia | apply nth_byte, Hp |].
    destruct (i + 1 <? Z.of_nat (List.length plain)); [apply nth_byte, Hp | lia].
  - constructor; [| apply IH; exact Hs'].
    apply charCodeAt_base32. change 31 with (Z.ones 5). rewrite Z.land_ones by lia.
    apply Z.mod_pos_bound. lia.
Qed.

Lemma encode_loop_length (p q : list Z) :
  List.length p = List.length q ->
  forall fuel i s, List.length (encode_loop fuel p i s) = List.length (encode_loop fuel q i s).
Proof.
  intros Hl. induction fuel as [| f IH]; intros i s; cbn [encode_loop]; [reflexivity |].
  rewrite Hl. destruct (i <? Z.of_nat (List.length q)); [| reflexivity].
  destruct (3 <? s); cbn [List.length]; rewrite IH; reflexivity.
Qed.

Lemma base32_not_pad (c : ascii) : is_base32_char c = true -> ceq c "="%char = false.
Proof.
  intros H. destruct (ceq c "="%char) eqn:E; [| reflexivity].
  apply ceq_true in E. subst c. discriminate.
Qed.

Lemma filter_all {A} (f : A -> bool) (l : list A) : Forall (fun x => f x = true) l -> filter f l = l.
Proof. induction 1 as [| x r Hx _ IH]; cbn; [reflexivity | rewrite Hx, IH; reflexivity]. Qed.

Lemma Forall_firstn' {A} (P : A -> Prop) (n : nat) (l : list A) :
  Forall P l -> Forall P (firstn n l).
Proof.
  intros H. rewrite <- (firstn_skipn n l) in H. apply Forall_app in H. exact (proj1 H).
Qed.

Lemma base32_string_valid (s : jstr) :
  Forall (fun c => is_base32_char c = true) s -> (8 <= List.length s)%nat ->
  validateAndCleanSecret s = Ok s.
Proof.
  intros Hall Hlen. destruct s as [| c r]; [cbn in Hlen; lia |].
  assert (Hre : base32_re (c :: r) = true).
  { inversion Hall as [| ? ? Hc Hr]; subst. cbn [base32_re]. rewrite Hc.
    apply base32_tail_spec. exists r, []. rewrite app_nil_r. auto. }
  assert (Hstrip : strip_trailing_pad (c :: r) = c :: r).
  { unfold strip_trailing_pad. rewrite drop_while_none, rev_involutive; [reflexivity |].
    apply Forall_rev. eapply Forall_impl; [| exact Hall]. intros x Hx.
    apply base32_not_pad, Hx. }
  unfold validateAndCleanSecret. cbv zeta. rewrite (clean_secret_id _ Hre), Hre, Hstrip.
  cbn [negb]. destruct (Nat.ltb_spec (List.length (c :: r)) 8); [lia | reflexivity].
Qed.

(** Whatever bytes [Crypto.getRandomBytes] returns, every character of
    the secret made by [generateTestSecret] is a Base32 character
    ([A-Z], [2-7]): the ['='] padding of [thirtyTwo.encode] is removed.
    For the 20 bytes it asks for, the secret has 32 characters and is
    accepted unchanged by [validateAndCleanSecret] and by
    [validateSecret]. *)
Theorem generateTestSecret_valid (randomBytes : list Z)
    (Hbytes : Forall (fun b => 0 <= b < 256) randomBytes) :
  Forall (fun c => is_base32_char c = true) (generateTestSecret randomBytes) /\
  (List.length randomBytes = 20%nat ->
   List.length (generateTestSecret randomBytes) = 32%nat /\
   validateAndCleanSecret (generateTestSecret randomBytes) = Ok (generateTestSecret randomBytes) /\
   validateSecret (generateTestSecret randomBytes) = true).
Proof.
  set (L := encode_loop (2 * List.length randomBytes + 1) randomBytes 0 0).
  assert (HL : Forall (fun d => is_base32_char (chr (Z.to_nat d)) = true) L)
    by (apply encode_loop_chars; [exact Hbytes | lia]).
  assert (Hall : Forall (fun c => is_base32_char c = true) (generateTestSecret randomBytes)).
  { unfold generateTestSecret, thirtyTwo_encode. fold L.
    apply Forall_forall. intros x Hx. apply filter_In in Hx as [Hx Hf].
    apply in_map_iff in Hx as [y [<- Hy]]. apply in_app_or in Hy as [Hy | Hy].
    - exact (proj1 (Forall_forall _ _) (Forall_firstn' _ _ _ HL) y Hy).
    - apply repeat_spec in Hy. subst y. discriminate. }
  split; [exact Hall |]. intros H20.
  assert (Hlen : List.length (generateTestSecret randomBytes) = 32%nat).
  { unfold generateTestSecret, thirtyTwo_encode. fold L.
    assert (HLlen : List.length L = List.length (encode_loop 41 (repeat 0 20) 0 0)).
    { unfold L. rewrite H20. apply encode_loop_length. rewrite H20, repeat_length. reflexivity. }
    assert (Hge : (32 <= List.length L)%nat) by (rewrite HLlen; vm_compute; lia).
    rewrite H20. change (quintetCount 20 * 8)%nat with 32%nat.
    rewrite (firstn_length_le _ Hge). rewrite Nat.sub_diag, app_nil_r.
    rewrite filter_all.
    - rewrite length_map. apply firstn_length_le, Hge.
    - apply Forall_map. apply (Forall_firstn' _ 32) in HL.
      eapply Forall_impl; [| exact HL]. intros d Hd. cbv beta.
      rewrite base32_not_pad by exact Hd. reflexivity. }
  assert (Hv : validateAndCleanSecret (generateTestSecret randomBytes)
               = Ok (generateTestSecret randomBytes))
    by (apply base32_string_valid; [exact Hall | lia]).
  split; [exact Hlen |]. split; [exact Hv |].
  unfold validateSecret. rewrite Hv, Hlen. reflexivity.
Qed.

Lemma generateTestSecret_valid_witness :
  Forall (fun b => 0 <= b < 256)
    [1; 2; 3; 4; 5; 6; 7; 8; 9; 10; 250; 251; 252; 253; 254; 255; 0; 128; 64; 32] /\
  validateSecret (generateTestSecret
    [1; 2; 3; 4; 5; 6; 7; 8; 9; 10; 250; 251; 252; 253; 254; 255; 0; 128; 64; 32]) = true.
Proof.
  assert (H : Forall (fun b => 0 <= b < 256)
    [1; 2; 3; 4; 5; 6; 7; 8; 9; 10; 250; 251; 252; 253; 254; 255; 0; 128; 64; 32])
    by (repeat constructor; lia).
  split; [exact H |].
  exact (proj2 (proj2 (proj2 (generateTestSecret_valid _ H) eq_refl))).
Defined.

(** ** Descriptors returned by [parseOTPAuthURL] and the accounts made from them *)

Lemma rethrow_with_ok {A} (prefix : string) (m : exc A) (v : A) :
  rethrow_with prefix m = Ok v -> m = Ok v.
Proof. destruct m; cbn; [auto | discriminate]. Qed.

Lemma jstr_in_In (s : jstr) (l : list jstr) : jstr_in s l = true -> In s l.
Proof.
  unfold jstr_in. intros H. apply existsb_exists in H as [x [Hx He]].
  apply jstr_eqb_eq in He. subst x. exact Hx.
Qed.

Lemma normalize_digits_facts (r : QRCodeResult) :
  In (qr_digits (normalize_digits r)) [JNum 6; JNum 7; JNum 8] /\
  qr_type (normalize_digits r) = qr_type r /\ qr_label (normalize_digits r) = qr_label r /\
  qr_secret (normalize_digits r) = qr_secret r /\ qr_issuer (normalize_digits r) = qr_issuer r /\
  qr_algorithm (normalize_digits r) = qr_algorithm r /\
  qr_period (normalize_digits r) = qr_period r /\ qr_counter (normalize_digits r) = qr_counter r.
Proof.
  unfold normalize_digits. destruct (num_in (qr_digits r) [6; 7; 8]) eqn:E; cbn [negb].
  - repeat split. destruct (qr_digits r) as [z |]; [| discriminate].
    cbn in E. cbn.
    destruct (Z.eqb_spec z 6); [subst; auto |].
    destruct (Z.eqb_spec z 7); [subst; auto |].
    destruct (Z.eqb_spec z 8); [subst; auto | discriminate].
  - repeat split. left. reflexivity.
Qed.

Lemma normalize_algorithm_facts (r : QRCodeResult) :
  In (qr_algorithm (normalize_algorithm r)) [str "SHA1"; str "SHA256"; str "SHA512"] /\
  qr_type (normalize_algorithm r) = qr_type r /\ qr_label (normalize_algorithm r) = qr_label r /\
  qr_secret (normalize_algorithm r) = qr_secret r /\
  qr_issuer (normalize_algorithm r) = qr_issuer r /\
  qr_digits (normalize_algorithm r) = qr_digits r /\
  qr_period (normalize_algorithm r) = qr_period r /\
  qr_counter (normalize_algorithm r) = qr_counter r.
Proof.
  unfold normalize_algorithm.
  destruct (jstr_in (qr_algorithm r) [str "SHA1"; str "SHA256"; str "SHA512"]) eqn:E;
    cbn [negb].
  - repeat split. apply jstr_in_In, E.
  - repeat split. left. reflexivity.
Qed.

Lemma normalize_period_facts (r : QRCodeResult) :
  (qr_period (normalize_period r) = JNaN \/
   exists p, qr_period (normalize_period r) = JNum p /\ 1 <= p <= 300) /\
  qr_type (normalize_period r) = qr_type r /\ qr_label (normalize_period r) = qr_label r /\
  qr_secret (normalize_period r) = qr_secret r /\ qr_issuer (normalize_period r) = qr_issuer r /\
  qr_digits (normalize_period r) = qr_digits r /\
  qr_algorithm (normalize_period r) = qr_algorithm r /\
  qr_counter (normalize_period r) = qr_counter r.
Proof.
  unfold normalize_period.
  destruct (num_lt (qr_period r) 1 || num_gt (qr_period r) 300) eqn:E.
  - repeat split. right. exists 30. split; [reflexivity | lia].
  - repeat split. destruct (qr_period r) as [z |]; [right | left; reflexivity].
    apply orb_false_iff in E as [E1 E2]. cbn in E1, E2.
    apply Z.ltb_ge in E1. apply Z.ltb_ge in E2. exists z. split; [reflexivity | lia].
Qed.

Lemma parseOTPAuthURL_result (url : jstr) (r : QRCodeResult) :
  parseOTPAuthURL url = Ok r ->
  exists type secret issuer counter,
    (type = str "totp" \/ type = str "hotp") /\
    validateSecret secret = true /\
    (type = str "totp" -> counter = None) /\
    qr_type r = type /\ qr_secret r = secret /\
    qr_issuer r = (if is_empty issuer then None else Some issuer) /\
    qr_counter r = counter /\
    In (qr_digits r) [JNum 6; JNum 7; JNum 8] /\
    In (qr_algorithm r) [str "SHA1"; str "SHA256"; str "SHA512"] /\
    (qr_period r = JNaN \/ exists p, qr_period r = JNum p /\ 1 <= p <= 300).
Proof.
  unfold parseOTPAuthURL. intros H. apply rethrow_with_ok in H.
  destruct (parse_url url) as [u | e]; cbn [exc_bind] in H; [| discriminate].
  destruct (jstr_eqb (protocol u) (str "otpauth:")); cbn [negb] in H; [| discriminate].
  cbv zeta in H.
  destruct (jstr_eqb (toLowerCase (hostname u)) (str "totp")
            || jstr_eqb (toLowerCase (hostname u)) (str "hotp")) eqn:Ety;
    cbn [negb] in H; [| discriminate].
  destruct (params_get (form_parse (query u)) (str "secret")) as [[| c s] |];
    [discriminate | | discriminate].
  destruct (validateSecret (c :: s)) eqn:Hv; cbn [negb] in H; [| discriminate].
  destruct (decodeURIComponent (substring1 (pathname u))) as [pl | e];
    cbn [exc_bind] in H; [| discriminate].
  destruct (parse_label pl (params_get (form_parse (query u)) (str "issuer"))) as [iss acc].
  injection H as <-.
  set (res := {| qr_type := _ |}).
  destruct (normalize_digits_facts res) as [D1 [D2 [D3 [D4 [D5 [D6 [D7 D8]]]]]]].
  destruct (normalize_algorithm_facts (normalize_digits res))
    as [A1 [A2 [A3 [A4 [A5 [A6 [A7 A8]]]]]]].
  destruct (normalize_period_facts (normalize_algorithm (normalize_digits res)))
    as [P1 [P2 [P3 [P4 [P5 [P6 [P7 P8]]]]]]].
  exists (toLowerCase (hostname u)), (c :: s), iss, (qr_counter res).
  split.
  { apply orb_true_iff in Ety as [E | E]; apply jstr_eqb_eq in E; [left | right]; exact E. }
  split; [exact Hv |].
  split.
  { intros Ht. unfold res. cbn [qr_counter]. rewrite Ht. reflexivity. }
  split; [rewrite P2, A2, D2; reflexivity |].
  split; [rewrite P4, A4, D4; reflexivity |].
  split; [rewrite P5, A5, D5; reflexivity |].
  split; [rewrite P8, A8, D8; reflexivity |].
  split; [rewrite P6, A6; exact D1 |].
  split; [rewrite P7; exact A1 |].
  exact P1.
Qed.

(** Whenever [parseOTPAuthURL] returns a descriptor, its type is [totp]
    or [hotp], its secret passes [validateSecret], its issuer is absent
    or nonempty, a [totp] descriptor has no counter, its digits are 6, 7
    or 8, its algorithm is [SHA1], [SHA256] or [SHA512], and its period
    is [NaN] or an integer in [1, 300]. *)
Theorem parseOTPAuthURL_result_invariants (url : jstr) (r : QRCodeResult)
    (H : parseOTPAuthURL url = Ok r) :
  (qr_type r = str "totp" \/ qr_type r = str "hotp") /\
  validateSecret (qr_secret r) = true /\
  qr_issuer r <> Some [] /\
  (qr_type r = str "totp" -> qr_counter r = None) /\
  In (qr_digits r) [JNum 6; JNum 7; JNum 8] /\
  In (qr_algorithm r) [str "SHA1"; str "SHA256"; str "SHA512"] /\
  (qr_period r = JNaN \/ exists p, qr_period r = JNum p /\ 1 <= p <= 300).
Proof.
  destruct (parseOTPAuthURL_result url r H)
    as (type & secret & iss & counter & Ht & Hv & Hc & Et & Es & Ei & Ec & Hd & Ha & Hp).
  rewrite Et, Es, Ei, Ec. split; [exact Ht |]. split; [exact Hv |].
  split; [destruct iss; cbn; congruence |].
  split; [exact Hc |]. split; [exact Hd |]. split; [exact Ha | exact Hp].
Qed.

Lemma parseOTPAuthURL_result_invariants_witness :
  parseOTPAuthURL
    (str "otpauth://totp/Example:alice?secret=JBSWY3DPEHPK3PXP&digits=9&period=0&algorithm=md5")
  = Ok {| qr_type := str "totp"; qr_label := str "Example:alice";
          qr_secret := str "JBSWY3DPEHPK3PXP"; qr_issuer := Some (str "Example");
          qr_algorithm := str "SHA1"; qr_digits := JNum 6; qr_period := JNum 30;
          qr_counter := None |} /\
  In (JNum 6) [JNum 6; JNum 7; JNum 8].
Proof.
  assert (H : parseOTPAuthURL
    (str "otpauth://totp/Example:alice?secret=JBSWY3DPEHPK3PXP&digits=9&period=0&algorithm=md5")
  = Ok {| qr_type := str "totp"; qr_label := str "Example:alice";
          qr_secret := str "JBSWY3DPEHPK3PXP"; qr_issuer := Some (str "Example");
          qr_algorithm := str "SHA1"; qr_digits := JNum 6; qr_period := JNum 30;
          qr_counter := None |}) by (vm_compute; reflexivity).
  split; [exact H |].
  exact (proj1 (proj2 (proj2 (proj2 (proj2 (parseOTPAuthURL_result_invariants _ _ H)))))).
Defined.

(** ** The account list of the home screen *)

(** Deleting by the id of an account just added by [handleAddAccount]
    gives the same list as deleting that id before the addition: the new
    account is removed and nothing else changes.  If no earlier account
    has that id, the list is back to what it was. *)
Theorem handleAddAccount_then_delete (nowId nowModified : Z) (accountData : AccountData)
    (prev : list LocalTOTPAccount) :
  handleDeleteAccount (number_to_string nowId)
    (handleAddAccount nowId nowModified accountData prev)
  = handleDeleteAccount (number_to_string nowId) prev /\
  (Forall (fun a => acc_id a <> number_to_string nowId) prev ->
   handleDeleteAccount (number_to_string nowId)
     (handleAddAccount nowId nowModified accountData prev) = prev).
Proof.
  assert (Hdel : handleDeleteAccount (number_to_string nowId)
                   (handleAddAccount nowId nowModified accountData prev)
                 = handleDeleteAccount (number_to_string nowId) prev).
  { unfold handleDeleteAccount, handleAddAccount. rewrite filter_app. cbn [filter acc_id].
    rewrite jstr_eqb_refl. cbn [negb]. apply app_nil_r. }
  split; [exact Hdel |]. intros Hnone. rewrite Hdel. unfold handleDeleteAccount.
  apply filter_all. eapply Forall_impl; [| exact Hnone]. intros a Ha. cbv beta.
  rewrite jstr_eqb_false by exact Ha. reflexivity.
Qed.

Lemma handleAddAccount_then_delete_witness :
  Forall (fun a => acc_id a <> number_to_string 1700000000000) [] /\
  handleDeleteAccount (number_to_string 1700000000000)
    (handleAddAccount 1700000000000 1700000000001
       {| ad_serviceName := str "Example"; ad_accountName := str "alice";
          ad_secret := str "JBSWY3DPEHPK3PXP"; ad_algorithm := str "SHA1";
          ad_digits := JNum 6; ad_period := JNum 30 |} []) = [].
Proof.
  assert (H : Forall (fun a => acc_id a <> number_to_string 1700000000000)
                (@nil LocalTOTPAccount)) by constructor.
  split; [exact H |].
  exact (proj2 (handleAddAccount_then_delete 1700000000000 1700000000001 _ [])
           H).
Defined.

(** Editing an account with [handleEditAccount] keeps the list's ids in
    order (no account is added, removed or renamed), and every account
    carrying the edited id now holds the submitted data, with sync status
    [pending] and the new modification time. *)
Theorem handleEditAccount_keeps_ids (ea : LocalTOTPAccount) (nowModified : Z)
    (accountData : AccountData) (prev : list LocalTOTPAccount) :
  map acc_id (handleEditAccount (Some ea) nowModified accountData prev) = map acc_id prev /\
  (forall a, In a (handleEditAccount (Some ea) nowModified accountData prev) ->
     acc_id a = acc_id ea ->
     acc_serviceName a = ad_serviceName accountData /\
     acc_accountName a = ad_accountName accountData /\
     acc_secret a = ad_secret accountData /\ acc_algorithm a = ad_algorithm accountData /\
     acc_digits a = ad_digits accountData /\ acc_period a = ad_period accountData /\
     acc_syncStatus a = str "pending" /\ acc_lastModified a = nowModified).
Proof.
  unfold handleEditAccount. split.
  - rewrite map_map. apply map_ext_in. intros a _.
    destruct (jstr_eqb (acc_id a) (acc_id ea)) eqn:E; [| reflexivity].
    apply jstr_eqb_eq in E. cbn [acc_id]. symmetry. exact E.
  - intros a Ha Hid. apply in_map_iff in Ha as [b [Hb _]].
    destruct (jstr_eqb (acc_id b) (acc_id ea)) eqn:E.
    + subst a. cbn. repeat split.
    + subst a. apply jstr_eqb_eq in Hid. congruence.
Qed.

(** [n || d] gives back [n] on a nonzero number. *)
Lemma or_num_nonzero (z d : Z) : z <> 0 -> or_num (JNum z) d = JNum z.
Proof. intros H. cbn. rewrite (proj2 (Z.eqb_neq z 0) H). reflexivity. Qed.

(** The account that [handleQRScanSuccess] appends for a descriptor
    returned by [parseOTPAuthURL] gets the new id and sync status
    [pending], the descriptor's secret (which passes [validateSecret]),
    digits 6, 7 or 8, algorithm [SHA1], [SHA256] or [SHA512], and an
    integer period in [1, 300]: a [NaN] period left by the parser is
    replaced by 30. *)
Theorem handleQRScanSuccess_parsed_account (url : jstr) (r : QRCodeResult)
    (H : parseOTPAuthURL url = Ok r) (nowId nowModified : Z) (prev : list LocalTOTPAccount) :
  exists a, handleQRScanSuccess nowId nowModified r prev = prev ++ [a] /\
    acc_id a = number_to_string nowId /\ acc_syncStatus a = str "pending" /\
    acc_secret a = qr_secret r /\ validateSecret (acc_secret a) = true /\
    In (acc_digits a) [JNum 6; JNum 7; JNum 8] /\
    In (acc_algorithm a) [str "SHA1"; str "SHA256"; str "SHA512"] /\
    (exists p, acc_period a = JNum p /\ 1 <= p <= 300) /\
    (qr_period r = JNaN -> acc_period a = JNum 30).
Proof.
  destruct (parseOTPAuthURL_result url r H)
    as (type & secret & iss & counter & _ & Hv & _ & _ & Es & _ & _ & Hd & Ha & Hp).
  eexists. split; [reflexivity |].
  cbn [acc_id acc_syncStatus acc_secret acc_digits acc_algorithm acc_period
       scannedAccountData ad_secret ad_digits ad_algorithm ad_period].
  split; [reflexivity |]. split; [reflexivity |]. split; [reflexivity |].
  split; [rewrite Es; exact Hv |].
  split.
  { destruct Hd as [<- | [<- | [<- | []]]]; cbn; auto. }
  split.
  { destruct Ha as [<- | [<- | [<- | []]]]; cbn; auto. }
  split.
  - destruct Hp as [-> | [p [-> Hp]]].
    + exists 30. split; [reflexivity | lia].
    + exists p. split; [apply or_num_nonzero; lia | exact Hp].
  - intros ->. reflexivity.
Qed.

Lemma handleQRScanSuccess_parsed_account_witness :
  parseOTPAuthURL (str "otpauth://totp/Example:alice?secret=JBSWY3DPEHPK3PXP&period=abc")
  = Ok {| qr_type := str "totp"; qr_label := str "Example:alice";
          qr_secret := str "JBSWY3DPEHPK3PXP"; qr_issuer := Some (str "Example");
          qr_algorithm := str "SHA1"; qr_digits := JNum 6; qr_period := JNaN;
          qr_counter := None |} /\
  exists a, handleQRScanSuccess 1700000000000 1700000000000
    {| qr_type := str "totp"; qr_label := str "Example:alice";
       qr_secret := str "JBSWY3DPEHPK3PXP"; qr_issuer := Some (str "Example");
       qr_algorithm := str "SHA1"; qr_digits := JNum 6; qr_period := JNaN;
       qr_counter := None |} [] = [a] /\ acc_period a = JNum 30.
Proof.
  assert (H : parseOTPAuthURL
      (str "otpauth://totp/Example:alice?secret=JBSWY3DPEHPK3PXP&period=abc")
    = Ok {| qr_type := str "totp"; qr_label := str "Example:alice";
            qr_secret := str "JBSWY3DPEHPK3PXP"; qr_issuer := Some (str "Example");
            qr_algorithm := str "SHA1"; qr_digits := JNum 6; qr_period := JNaN;
            qr_counter := None |}) by (vm_compute; reflexivity).
  split; [exact H |].
  destruct (handleQRScanSuccess_parsed_account _ _ H 1700000000000 1700000000000 [])
    as [a [Ea [_ [_ [_ [_ [_ [_ [_ Hnan]]]]]]]]].
  exists a. split; [exact Ea | apply Hnan; reflexivity].
Defined.

Lemma normalize_label_secret (r : QRCodeResult) :
  qr_label (normalize_period (normalize_algorithm (normalize_digits r))) = qr_label r /\
  qr_secret (normalize_period (normalize_algorithm (normalize_digits r))) = qr_secret r.
Proof.
  destruct (normalize_digits_facts r) as [_ [_ [D3 [D4 _]]]].
  destruct (normalize_algorithm_facts (normalize_digits r)) as [_ [_ [A3 [A4 _]]]].
  destruct (normalize_period_facts (normalize_algorithm (normalize_digits r)))
    as [_ [_ [P3 [P4 _]]]].
  rewrite P3, A3, D3, P4, A4, D4. split; reflexivity.
Qed.

Lemma createOTPAuthURL_parse_label (issuer accountName secret : jstr) (options : TOTPOptions)
    (Hi : ascii_str issuer) (Hacc : ascii_str accountName)
    (Hs : validateSecret secret = true) (Hne : issuer <> []) :
  exists url,
    createOTPAuthURL issuer accountName secret options = Ok url /\
  exists r,
    parseOTPAuthURL url = Ok r /\
    qr_label r = issuer ++ ":"%char :: accountName /\ qr_secret r = clean_secret secret.
Proof.
  destruct (validateSecret_ok secret Hs) as [cl Hcl].
  destruct (validateAndCleanSecret_ok _ _ Hcl) as [Hcl_eq Hcl_idem].
  destruct cl as [| c0 cl'] eqn:Ecl.
  { cbn in Hcl_idem. discriminate. }
  assert (Hie : is_empty issuer = false) by (destruct issuer; [congruence | reflexivity]).
  unfold createOTPAuthURL. rewrite Hcl. cbn [exc_bind]. cbv zeta. rewrite Hie.
  set (label := issuer ++ [":"%char] ++ accountName).
  set (alg := match algorithm options with Some a => algorithm_name a | None => str "SHA1" end).
  set (dig := number_to_string (match digits options with
                                | Some d => digits_num d | None => 6 end)).
  set (per := number_to_string (or_default (period options) 30)).
  set (ps := [(str "secret", c0 :: cl'); (str "issuer", issuer); (str "algorithm", alg);
              (str "digits", dig); (str "period", per)] : list (jstr * jstr)).
  assert (Hlabel : ascii_str label).
  { apply ascii_str_app; [exact Hi | apply ascii_str_app; [| exact Hacc]].
    repeat constructor. }
  eexists. split; [reflexivity |].
  change (serialize_params [(str "secret", c0 :: cl'); (str "issuer", issuer);
            (str "algorithm", alg); (str "digits", dig); (str "period", per)])
    with (serialize_params ps).
  unfold parseOTPAuthURL.
  rewrite (parse_url_built (encodeURIComponent label) (serialize_params ps)
             (encodeURIComponent_chars label) (serialize_params_chars ps)).
  cbn [exc_bind protocol hostname pathname query].
  rewrite jstr_eqb_refl. cbn [negb].
  change (toLowerCase (str "totp")) with (str "totp").
  change (jstr_eqb (str "totp") (str "totp") || jstr_eqb (str "totp") (str "hotp"))
    with true.
  cbn [negb].
  rewrite (form_parse_serialize ps) by discriminate.
  change (params_get ps (str "secret")) with (Some (c0 :: cl')).
  change (params_get ps (str "issuer")) with (Some issuer).
  rewrite (decode_built_path label Hlabel).
  assert (Hv : validateSecret (c0 :: cl') = true)
    by (unfold validateSecret; rewrite Hcl_idem; reflexivity).
  rewrite Hv. cbn [negb exc_bind].
  assert (Hcolon : In ":"%char label)
    by (apply in_or_app; right; left; reflexivity).
  assert (HL : (if jstr_eqb label (str ".") || jstr_eqb label (str "..") then [] else label)
               = label).
  { rewrite !jstr_eqb_false; [reflexivity | |];
      intros Heq; rewrite Heq in Hcolon; cbn in Hcolon; intuition discriminate. }
  rewrite HL.
  destruct (parse_label label (Some issuer)) as [iss acc].
  cbn [rethrow_with]. eexists. split; [reflexivity |].
  destruct (normalize_label_secret
    {| qr_type := str "totp"; qr_label := label; qr_secret := c0 :: cl';
       qr_issuer := if is_empty iss then None else Some iss;
       qr_algorithm := or_str (option_map toUpperCase (params_get ps (str "algorithm")))
                         (str "SHA1");
       qr_digits := parseInt (or_str (params_get ps (str "digits")) (str "6"));
       qr_period := parseInt (or_str (params_get ps (str "period")) (str "30"));
       qr_counter := if jstr_eqb (str "totp") (str "hotp") then
                       match params_get ps (str "counter") with
                       | Some c => if is_empty c then None else Some (parseInt c)
                       | None => None
                       end
                     else None |}) as [El Es].
  rewrite El, Es. split; [reflexivity | exact Hcl_eq].
Qed.

(** For a nonempty issuer and a nonempty account name, both of 7-bit
    characters and without [':'], and a secret that passes
    [validateSecret], scanning the URI built by [createOTPAuthURL] (any
    options) adds through [handleQRScanSuccess] an account whose
    service name is the issuer, whose account name is the given account
    name, and whose secret is the cleaned secret. *)
Theorem createOTPAuthURL_scanned_account (issuer accountName secret : jstr)
    (options : TOTPOptions) (nowId nowModified : Z) (prev : list LocalTOTPAccount)
    (Hi : ascii_str issuer) (Hacc : ascii_str accountName)
    (Hs : validateSecret secret = true)
    (Hne : issuer <> []) (Hane : accountName <> [])
    (Hci : ~ In ":"%char issuer) (Hca : ~ In ":"%char accountName) :
  exists url r,
    createOTPAuthURL issuer accountName secret options = Ok url /\
    parseOTPAuthURL url = Ok r /\
    exists a, handleQRScanSuccess nowId nowModified r prev = prev ++ [a] /\
      acc_serviceName a = issuer /\ acc_accountName a = accountName /\
      acc_secret a = clean_secret secret.
Proof.
  destruct (createOTPAuthURL_parse_label issuer accountName secret options Hi Hacc Hs Hne)
    as (url & Ec & r & Ep & El & Es).
  exists url, r. split; [exact Ec |]. split; [exact Ep |].
  eexists. split; [reflexivity |].
  cbn [acc_serviceName acc_accountName acc_secret scannedAccountData
       ad_serviceName ad_accountName ad_secret].
  rewrite El, js_split_sep by exact Hci. rewrite js_split_nosep by exact Hca.
  cbn [nth_error or_str]. rewrite Es.
  destruct issuer as [| ci ri]; [congruence |].
  destruct accountName as [| ca ra]; [congruence |].
  split; [reflexivity |]. split; reflexivity.
Qed.

Lemma createOTPAuthURL_scanned_account_witness :
  exists url r,
    createOTPAuthURL (str "Example") (str "alice@google.com") (str "jbsw y3dp ehpk 3pxp")
      no_options = Ok url /\
    parseOTPAuthURL url = Ok r /\
    exists a, handleQRScanSuccess 1700000000000 1700000000000 r [] = [a] /\
      acc_serviceName a = str "Example" /\ acc_accountName a = str "alice@google.com".
Proof.
  destruct (createOTPAuthURL_scanned_account (str "Example") (str "alice@google.com")
              (str "jbsw y3dp ehpk 3pxp") no_options 1700000000000 1700000000000 []
              ltac:(repeat (apply Forall_cons; [apply Nat.ltb_lt; reflexivity |]); apply Forall_nil)
              ltac:(repeat (apply Forall_cons; [apply Nat.ltb_lt; reflexivity |]); apply Forall_nil)
              ltac:(vm_compute; reflexivity) ltac:(discriminate) ltac:(discriminate)
              ltac:(cbn; intuition discriminate) ltac:(cbn; intuition discriminate))
    as (url & r & E1 & E2 & a & E3 & Hs & Ha & _).
  exists url, r. split; [exact E1 |]. split; [exact E2 |].
  exists a. split; [exact E3 |]. split; [exact Hs | exact Ha].
Defined.

Lemma starts_with_app (p s : jstr) : starts_with p (p ++ s) = true.
Proof.
  induction p as [| c r IH]; [destruct s; reflexivity |].
  cbn [starts_with app]. rewrite ceq_refl, IH. reflexivity.
Qed.

Lemma str_includes_unfold (s sub : jstr) :
  str_includes s sub =
  starts_with sub s || match s with [] => false | _ :: r => str_includes r sub end.
Proof. destruct s; reflexivity. Qed.

Lemma str_includes_infix (pre q post : jstr) : str_includes (pre ++ q ++ post) q = true.
Proof.
  induction pre as [| c r IH]; rewrite str_includes_unfold.
  - rewrite app_nil_l, starts_with_app. reflexivity.
  - rewrite <- app_comm_cons. cbv iota beta. rewrite IH. apply orb_true_r.
Qed.

(** The search of the home screen: an empty query shows every account,
    in order; and an account is shown for any query that equals, up to
    letter case, a piece of its service name or of its account name. *)
Theorem filteredAccounts_search (accounts : list LocalTOTPAccount) :
  filteredAccounts [] accounts = accounts /\
  (forall a pre q post query, In a accounts ->
     (acc_serviceName a = pre ++ q ++ post \/ acc_accountName a = pre ++ q ++ post) ->
     toLowerCase query = toLowerCase q ->
     In a (filteredAccounts query accounts)).
Proof.
  split.
  - unfold filteredAccounts. apply filter_all. apply Forall_forall. intros a _.
    cbn [toLowerCase map]. destruct (toLowerCase (acc_serviceName a)); reflexivity.
  - intros a pre q post query Ha Hpiece Hq. unfold filteredAccounts.
    apply filter_In. split; [exact Ha |]. rewrite Hq.
    destruct Hpiece as [Hs | Hs]; rewrite Hs; unfold toLowerCase; rewrite !map_app;
      rewrite str_includes_infix; [reflexivity | apply orb_true_r].
Qed.
